(** * TruckPlanner Pro: the live turn-by-turn navigation engine

    A shallow embedding of [frontend/src/components/TurnByTurnNavigation.jsx]
    (the [MapFollower] heading smoother, [calcDist], [checkIfOffRoute],
    [handleRecalculate], the [watchPosition] callback and the driving-time
    interval) together with the [onRecalculateRoute] callback that the route
    planner page passes to it.

    JavaScript numbers are idealised as real numbers: [Math.sin], [Math.cos],
    [Math.atan2] and [Math.sqrt] are the real functions, rounding error is not
    modelled and [NaN] never occurs (a reading that is [null] or [NaN] is
    [None]).  Counters, indices and [Date.now()] timestamps, which only ever
    hold integers in the program, are integers here. *)

From Stdlib Require Import Reals Lra Lia ZArith List String Bool DecimalString.
From Stdlib Require Import Sorted Permutation.
Import ListNotations.

Local Open Scope R_scope.

(** ** JavaScript arithmetic used by the component *)

Module JS.

(** [Math.round]: the nearest integer, ties upwards. *)
Definition Math_round (x : R) : Z := Zfloor (x + / 2).

(** Truncation towards zero, as used by the [%] operator. *)
Definition trunc (x : R) : Z :=
  if Rle_dec 0 x then Zfloor x else Zceil x.

(** [x % m] on numbers: the remainder has the sign of the dividend. *)
Definition rem (x m : R) : R := x - m * IZR (trunc (x / m)).

(** [Math.atan2 (y, x)] on all four quadrants. *)
Definition Math_atan2 (y x : R) : R :=
  if Rlt_dec 0 x then atan (y / x)
  else if Rlt_dec x 0 then
    (if Rle_dec 0 y then atan (y / x) + PI else atan (y / x) - PI)
  else if Rlt_dec 0 y then PI / 2
  else if Rlt_dec y 0 then - (PI / 2)
  else 0.

(** [Number.prototype.toFixed(1)] followed by [parseFloat]. *)
Definition toFixed1 (x : R) : R := IZR (Math_round (x * 10)) / 10.

(** Truthiness of a number that may be [undefined]. *)
Definition truthy (v : option R) : bool :=
  match v with
  | Some x => if Req_dec_T x 0 then false else true
  | None => false
  end.

(** [a || b] on such numbers. *)
Definition or_else (a b : option R) : option R :=
  if truthy a then a else b.

(** [a || b] on strings that may be [undefined]. *)
Definition or_str (a : option string) (b : string) : string :=
  match a with
  | Some s => if String.eqb s EmptyString then b else s
  | None => b
  end.

End JS.

(** ** Geo math *)

(** The haversine term [a] of [calcDist]. *)
Definition hav (lat1 lon1 lat2 lon2 : R) : R :=
  let dLat := (lat2 - lat1) * PI / 180 in
  let dLon := (lon2 - lon1) * PI / 180 in
  (sin (dLat / 2)) ^ 2
  + cos (lat1 * PI / 180) * cos (lat2 * PI / 180) * (sin (dLon / 2)) ^ 2.

(** [calcDist (lat1, lon1, lat2, lon2)]: great-circle distance in km. *)
Definition calcDist (lat1 lon1 lat2 lon2 : R) : R :=
  let R0 := 6371 in
  let a := hav lat1 lon1 lat2 lon2 in
  R0 * 2 * JS.Math_atan2 (sqrt a) (sqrt (1 - a)).

(** The loop of [checkIfOffRoute].  [minDist] is [None] while it is still
    [Infinity]. *)
Fixpoint offRoute_scan (lat lon : R) (pts : list (R * R)) (minDist : option R)
  : bool :=
  match pts with
  | [] =>
      match minDist with
      | None => true
      | Some m => if Rgt_dec m 50 then true else false
      end
  | point :: rest =>
      let dist := calcDist lat lon (fst point) (snd point) * 1000 in
      let minDist' :=
        match minDist with
        | None => Some dist
        | Some m => if Rlt_dec dist m then Some dist else Some m
        end in
      if Rlt_dec dist 50 then false
      else offRoute_scan lat lon rest minDist'
  end.

(** [checkIfOffRoute (lat, lon)] for the [route] prop, which may be absent. *)
Definition checkIfOffRoute (route : option (list (R * R))) (lat lon : R) : bool :=
  match route with
  | None => false
  | Some [] => false
  | Some pts => offRoute_scan lat lon pts None
  end.

(** The route point [p] is more than 50 m from the position [(lat, lon)]. *)
Definition farFrom (lat lon : R) (p : R * R) : Prop :=
  calcDist lat lon (fst p) (snd p) * 1000 > 50.

(** ** Data model of the component *)

(** A [{ lat, lon }] object. *)
Record Coords := mkCoords { c_lat : R; c_lon : R }.

(** [pos.coords] of a geolocation reading: [heading] in degrees and [speed]
    in m/s are [None] when the device reports [null] or [NaN]. *)
Record GeoSample := mkGeoSample {
  latitude : R;
  longitude : R;
  g_heading : option R;
  g_speed : option R
}.

(** An entry of the [waypoints] prop. *)
Record Waypoint := mkWaypoint {
  wp_text : option string;
  wp_name : option string;
  wp_coords : option Coords;
  wp_lat : option R;
  wp_lon : option R;
  wp_isRestStop : bool
}.

(** An entry of [allDestinations]. *)
Record Destination := mkDestination {
  d_name : string;
  d_lat : option R;
  d_lon : option R;
  d_isRestStop : bool
}.

(** The props of [TurnByTurnNavigation] that the engine reads. *)
Record Props := mkProps {
  route : option (list (R * R));
  startCoords : option Coords;
  endCoords : option Coords;
  totalDistance : option R;
  totalDuration : option R;
  waypoints : list Waypoint;
  onRecalculateRoute : bool;      (* whether the callback was passed *)
  language : string               (* [i18n.language] *)
}.

(** The [useState] cells and the [lastRecalculateTime] ref. *)
Record State := mkState {
  currentPosition : option Coords;
  heading : R;
  smoothHeading : R;
  speed : R;
  isFollowing : bool;
  remainingDistance : R;
  remainingTime : R;
  progressPercent : R;
  currentWaypointIndex : nat;
  distanceToNextWaypoint : R;
  timeToNextWaypoint : R;
  nextWaypointName : string;
  showBreakWarning : bool;
  drivingTime : Z;
  isOffRoute : bool;
  showRecalculatePrompt : bool;
  lastRecalculateTime : Z
}.

(** What the component does to the outside world. *)
Inductive Effect :=
| ToastSuccess (msg : string)
| ToastInfo (msg : string)
| ToastError (msg : string)
| RoutingRequest (newStart : Coords)   (* [onRecalculateRoute(currentPosition)] *)
| BreakWarning.                        (* [setShowBreakWarning(true)] *)

Definition is_de (lang : string) : bool := String.eqb lang "de".

(** [allDestinations]: the waypoints followed by the final destination,
    without the entries whose [lat] or [lon] is falsy. *)
Definition allDestinations (P : Props) : list Destination :=
  filter (fun d => JS.truthy (d_lat d) && JS.truthy (d_lon d))
    (map (fun wp =>
            {| d_name := JS.or_str (wp_text wp)
                           (JS.or_str (wp_name wp) "Zwischenziel");
               d_lat := JS.or_else (option_map c_lat (wp_coords wp)) (wp_lat wp);
               d_lon := JS.or_else (option_map c_lon (wp_coords wp)) (wp_lon wp);
               d_isRestStop := wp_isRestStop wp |})
         (waypoints P)
     ++ [ {| d_name := if is_de (language P) then "Ziel" else "Destination";
             d_lat := option_map c_lat (endCoords P);
             d_lon := option_map c_lon (endCoords P);
             d_isRestStop := false |} ]).

(** [allDestinations[currentWaypointIndex] || allDestinations[0]]. *)
Definition currentDestination (P : Props) (s : State) : option Destination :=
  match nth_error (allDestinations P) (currentWaypointIndex s) with
  | Some d => Some d
  | None => hd_error (allDestinations P)
  end.

(** The state a freshly mounted component starts in. *)
Definition initialState (P : Props) : State :=
  {| currentPosition := startCoords P;
     heading := 0;
     smoothHeading := 0;
     speed := 0;
     isFollowing := true;
     remainingDistance :=
       match JS.or_else (totalDistance P) (Some 0) with Some x => x | None => 0 end;
     remainingTime :=
       match JS.or_else (totalDuration P) (Some 0) with Some x => x | None => 0 end;
     progressPercent := 0;
     currentWaypointIndex := 0;
     distanceToNextWaypoint := 0;
     timeToNextWaypoint := 0;
     nextWaypointName := "";
     showBreakWarning := false;
     drivingTime := 0;
     isOffRoute := false;
     showRecalculatePrompt := false;
     lastRecalculateTime := 0 |}.

(** ** The heading smoother ([MapFollower]) *)

(** One run of the smoothing effect: the value [smoothHeading] has after it. *)
Definition smoothStep (following : bool) (h smooth : R) : R :=
  if following then
    let diff := Rabs (h - smooth) in
    let normalizedDiff := if Rgt_dec diff 180 then 360 - diff else diff in
    if Rgt_dec normalizedDiff 3 then
      let newHeading := smooth + (h - smooth) * 0.15 in
      let newHeading :=
        if Rgt_dec (h - smooth) 180
        then smooth - (360 - h + smooth) * 0.15 else newHeading in
      let newHeading :=
        if Rgt_dec (smooth - h) 180
        then smooth + (360 - smooth + h) * 0.15 else newHeading in
      JS.rem (JS.rem newHeading 360 + 360) 360
    else smooth
  else smooth.

(** ** State setters

    One function per [useState] setter (and one for the ref): the state with
    that cell replaced. *)

Definition setCurrentPosition (v : option Coords) (s : State) : State :=
  mkState v (heading s) (smoothHeading s) (speed s) (isFollowing s)
    (remainingDistance s) (remainingTime s) (progressPercent s)
    (currentWaypointIndex s) (distanceToNextWaypoint s) (timeToNextWaypoint s)
    (nextWaypointName s) (showBreakWarning s) (drivingTime s) (isOffRoute s)
    (showRecalculatePrompt s) (lastRecalculateTime s).

Definition setHeading (v : R) (s : State) : State :=
  mkState (currentPosition s) v (smoothHeading s) (speed s) (isFollowing s)
    (remainingDistance s) (remainingTime s) (progressPercent s)
    (currentWaypointIndex s) (distanceToNextWaypoint s) (timeToNextWaypoint s)
    (nextWaypointName s) (showBreakWarning s) (drivingTime s) (isOffRoute s)
    (showRecalculatePrompt s) (lastRecalculateTime s).

Definition setSmoothHeading (v : R) (s : State) : State :=
  mkState (currentPosition s) (heading s) v (speed s) (isFollowing s)
    (remainingDistance s) (remainingTime s) (progressPercent s)
    (currentWaypointIndex s) (distanceToNextWaypoint s) (timeToNextWaypoint s)
    (nextWaypointName s) (showBreakWarning s) (drivingTime s) (isOffRoute s)
    (showRecalculatePrompt s) (lastRecalculateTime s).

Definition setSpeed (v : R) (s : State) : State :=
  mkState (currentPosition s) (heading s) (smoothHeading s) v (isFollowing s)
    (remainingDistance s) (remainingTime s) (progressPercent s)
    (currentWaypointIndex s) (distanceToNextWaypoint s) (timeToNextWaypoint s)
    (nextWaypointName s) (showBreakWarning s) (drivingTime s) (isOffRoute s)
    (showRecalculatePrompt s) (lastRecalculateTime s).

Definition setIsFollowing (v : bool) (s : State) : State :=
  mkState (currentPosition s) (heading s) (smoothHeading s) (speed s) v
    (remainingDistance s) (remainingTime s) (progressPercent s)
    (currentWaypointIndex s) (distanceToNextWaypoint s) (timeToNextWaypoint s)
    (nextWaypointName s) (showBreakWarning s) (drivingTime s) (isOffRoute s)
    (showRecalculatePrompt s) (lastRecalculateTime s).

Definition setRemainingDistance (v : R) (s : State) : State :=
  mkState (currentPosition s) (heading s) (smoothHeading s) (speed s)
    (isFollowing s) v (remainingTime s) (progressPercent s)
    (currentWaypointIndex s) (distanceToNextWaypoint s) (timeToNextWaypoint s)
    (nextWaypointName s) (showBreakWarning s) (drivingTime s) (isOffRoute s)
    (showRecalculatePrompt s) (lastRecalculateTime s).

Definition setRemainingTime (v : R) (s : State) : State :=
  mkState (currentPosition s) (heading s) (smoothHeading s) (speed s)
    (isFollowing s) (remainingDistance s) v (progressPercent s)
    (currentWaypointIndex s) (distanceToNextWaypoint s) (timeToNextWaypoint s)
    (nextWaypointName s) (showBreakWarning s) (drivingTime s) (isOffRoute s)
    (showRecalculatePrompt s) (lastRecalculateTime s).

Definition setProgressPercent (v : R) (s : State) : State :=
  mkState (currentPosition s) (heading s) (smoothHeading s) (speed s)
    (isFollowing s) (remainingDistance s) (remainingTime s) v
    (currentWaypointIndex s) (distanceToNextWaypoint s) (timeToNextWaypoint s)
    (nextWaypointName s) (showBreakWarning s) (drivingTime s) (isOffRoute s)
    (showRecalculatePrompt s) (lastRecalculateTime s).

Definition setCurrentWaypointIndex (v : nat) (s : State) : State :=
  mkState (currentPosition s) (heading s) (smoothHeading s) (speed s)
    (isFollowing s) (remainingDistance s) (remainingTime s)
    (progressPercent s) v (distanceToNextWaypoint s) (timeToNextWaypoint s)
    (nextWaypointName s) (showBreakWarning s) (drivingTime s) (isOffRoute s)
    (showRecalculatePrompt s) (lastRecalculateTime s).

Definition setDistanceToNextWaypoint (v : R) (s : State) : State :=
  mkState (currentPosition s) (heading s) (smoothHeading s) (speed s)
    (isFollowing s) (remainingDistance s) (remainingTime s)
    (progressPercent s) (currentWaypointIndex s) v (timeToNextWaypoint s)
    (nextWaypointName s) (showBreakWarning s) (drivingTime s) (isOffRoute s)
    (showRecalculatePrompt s) (lastRecalculateTime s).

Definition setTimeToNextWaypoint (v : R) (s : State) : State :=
  mkState (currentPosition s) (heading s) (smoothHeading s) (speed s)
    (isFollowing s) (remainingDistance s) (remainingTime s)
    (progressPercent s) (currentWaypointIndex s) (distanceToNextWaypoint s) v
    (nextWaypointName s) (showBreakWarning s) (drivingTime s) (isOffRoute s)
    (showRecalculatePrompt s) (lastRecalculateTime s).

Definition setNextWaypointName (v : string) (s : State) : State :=
  mkState (currentPosition s) (heading s) (smoothHeading s) (speed s)
    (isFollowing s) (remainingDistance s) (remainingTime s)
    (progressPercent s) (currentWaypointIndex s) (distanceToNextWaypoint s)
    (timeToNextWaypoint s) v (showBreakWarning s) (drivingTime s)
    (isOffRoute s) (showRecalculatePrompt s) (lastRecalculateTime s).

Definition setShowBreakWarning (v : bool) (s : State) : State :=
  mkState (currentPosition s) (heading s) (smoothHeading s) (speed s)
    (isFollowing s) (remainingDistance s) (remainingTime s)
    (progressPercent s) (currentWaypointIndex s) (distanceToNextWaypoint s)
    (timeToNextWaypoint s) (nextWaypointName s) v (drivingTime s)
    (isOffRoute s) (showRecalculatePrompt s) (lastRecalculateTime s).

Definition setDrivingTime (v : Z) (s : State) : State :=
  mkState (currentPosition s) (heading s) (smoothHeading s) (speed s)
    (isFollowing s) (remainingDistance s) (remainingTime s)
    (progressPercent s) (currentWaypointIndex s) (distanceToNextWaypoint s)
    (timeToNextWaypoint s) (nextWaypointName s) (showBreakWarning s) v
    (isOffRoute s) (showRecalculatePrompt s) (lastRecalculateTime s).

Definition setIsOffRoute (v : bool) (s : State) : State :=
  mkState (currentPosition s) (heading s) (smoothHeading s) (speed s)
    (isFollowing s) (remainingDistance s) (remainingTime s)
    (progressPercent s) (currentWaypointIndex s) (distanceToNextWaypoint s)
    (timeToNextWaypoint s) (nextWaypointName s) (showBreakWarning s)
    (drivingTime s) v (showRecalculatePrompt s) (lastRecalculateTime s).

Definition setShowRecalculatePrompt (v : bool) (s : State) : State :=
  mkState (currentPosition s) (heading s) (smoothHeading s) (speed s)
    (isFollowing s) (remainingDistance s) (remainingTime s)
    (progressPercent s) (currentWaypointIndex s) (distanceToNextWaypoint s)
    (timeToNextWaypoint s) (nextWaypointName s) (showBreakWarning s)
    (drivingTime s) (isOffRoute s) v (lastRecalculateTime s).

Definition setLastRecalculateTime (v : Z) (s : State) : State :=
  mkState (currentPosition s) (heading s) (smoothHeading s) (speed s)
    (isFollowing s) (remainingDistance s) (remainingTime s)
    (progressPercent s) (currentWaypointIndex s) (distanceToNextWaypoint s)
    (timeToNextWaypoint s) (nextWaypointName s) (showBreakWarning s)
    (drivingTime s) (isOffRoute s) (showRecalculatePrompt s) v.
(** ** The position callback

    The callback registered with [watchPosition] closes over the render it
    was created in: it reads [speed], [currentDestination],
    [currentWaypointIndex] and [isOffRoute] from that render ([c] below) and
    writes through the setters ([s] below).  Writes become visible to the
    callback only after the next render. *)

(** [const avgSpeed = speed > 10 ? speed : 70]. *)
Definition avgSpeed (c : State) : R :=
  if Rgt_dec (speed c) 10 then speed c else 70.

(** The first three setter calls of the callback. *)
Definition recordReading (pos : GeoSample) (s : State) : State :=
  let s := setCurrentPosition
             (Some {| c_lat := latitude pos; c_lon := longitude pos |}) s in
  let s := match g_heading pos with Some h => setHeading h s | None => s end in
  match g_speed pos with
  | Some v => setSpeed (IZR (JS.Math_round (v * 3.6))) s
  | None => s
  end.

(** Distance and time to the next waypoint, and the arrival rule. *)
Definition trackWaypoint (P : Props) (c : State) (pos : GeoSample) (s : State)
  : State * list Effect :=
  match currentDestination P c with
  | Some d =>
      match d_lat d, d_lon d with
      | Some dlat, Some dlon =>
          if JS.truthy (d_lat d) && JS.truthy (d_lon d) then
            let distToNext :=
              calcDist (latitude pos) (longitude pos) dlat dlon in
            let s := setDistanceToNextWaypoint (Rmax 0 distToNext) s in
            let s := setTimeToNextWaypoint
                       (IZR (JS.Math_round (distToNext / avgSpeed c * 60))) s in
            let s := setNextWaypointName (JS.or_str (Some (d_name d)) "Ziel") s in
            if Rlt_dec distToNext 0.2 then
              if (Z.of_nat (currentWaypointIndex c)
                  <? Z.of_nat (List.length (allDestinations P)) - 1)%Z
              then (setCurrentWaypointIndex (currentWaypointIndex s + 1) s,
                    [ToastSuccess
                       (d_name d ++ (if is_de (language P)
                                     then " erreicht!" else " reached!"))%string])
              else (s, [])
            else (s, [])
          else (s, [])
      | _, _ => (s, [])
      end
  | None => (s, [])
  end.

(** Remaining distance, progress and remaining time for the whole trip. *)
Definition trackTrip (P : Props) (c : State) (pos : GeoSample) (s : State)
  : State :=
  match endCoords P, totalDistance P with
  | Some e, Some total =>
      if JS.truthy (Some total) then
        let remainingToEnd :=
          calcDist (latitude pos) (longitude pos) (c_lat e) (c_lon e) in
        let s := setRemainingDistance (Rmax 0 remainingToEnd) s in
        let s := setProgressPercent
                   (Rmin 100 ((total - remainingToEnd) / total * 100)) s in
        setRemainingTime (IZR (JS.Math_round (remainingToEnd / avgSpeed c * 60))) s
      else s
  | _, _ => s
  end.

(** The off-route check at the end of the callback. *)
Definition trackOffRoute (P : Props) (c : State) (pos : GeoSample) (s : State)
  : State :=
  let offRoute := checkIfOffRoute (route P) (latitude pos) (longitude pos) in
  if offRoute && negb (isOffRoute c)
  then setShowRecalculatePrompt true (setIsOffRoute true s)
  else s.

(** The whole callback, run in the render whose state is [s]. *)
Definition onPosition (P : Props) (s : State) (pos : GeoSample)
  : State * list Effect :=
  let s1 := recordReading pos s in
  let '(s2, toasts) := trackWaypoint P s pos s1 in
  let s3 := trackTrip P s pos s2 in
  (trackOffRoute P s pos s3, toasts).

(** ** The driving-time interval *)

(** The updater passed to [setDrivingTime] every 60 s. *)
Definition drivingTick (s : State) : State * list Effect :=
  let prev := drivingTime s in
  if (prev + 1 =? 240)%Z
  then (setDrivingTime (prev + 1) (setShowBreakWarning true s), [BreakWarning])
  else (setDrivingTime (prev + 1) s, []).

(** ** Recalculation *)

(** [handleRecalculate], called at [Date.now() = now]: the new state and,
    when [onRecalculateRoute] is called, its argument. *)
Definition handleRecalculate (P : Props) (s : State) (now : Z)
  : State * option Coords :=
  if onRecalculateRoute P then
    match currentPosition s with
    | Some p =>
        if (now - lastRecalculateTime s >? 30000)%Z then
          (setShowRecalculatePrompt false
             (setIsOffRoute false (setLastRecalculateTime now s)),
           Some p)
        else (s, None)
    | None => (s, None)
    end
  else (s, None).

(** The part of the routing service's answer that the planner reads
    ([response.data.route]). *)
Record MainRoute := mkMainRoute {
  geometry : option (list (R * R));     (* [lon, lat] pairs *)
  distance_km : option R;
  duration_minutes : option R
}.

(** How the [axios.post] of one request settles. *)
Inductive RoutingOutcome :=
| Responded (mainRoute : MainRoute)
| Rejected.

(** The planner's [onRecalculateRoute] once its request has settled: the
    props it hands down afterwards, and its toasts.  A rejection is caught
    by the [try]/[catch] around the whole body. *)
Definition settleRecalculate (P : Props) (newStart : Coords)
  (outcome : RoutingOutcome) : Props * list Effect :=
  match outcome with
  | Responded mainRoute =>
      let newGeometry :=
        match geometry mainRoute with
        | Some g => map (fun coord => (snd coord, fst coord)) g
        | None => []
        end in
      ({| route := Some newGeometry;
          startCoords := Some {| c_lat := c_lat newStart; c_lon := c_lon newStart |};
          endCoords := endCoords P;
          totalDistance :=
            Some (match distance_km mainRoute with
                  | Some d => JS.toFixed1 d
                  | None => 0
                  end);
          totalDuration :=
            Some (match duration_minutes mainRoute with
                  | Some d => IZR (JS.Math_round d)
                  | None => 0
                  end);
          waypoints := waypoints P;
          onRecalculateRoute := onRecalculateRoute P;
          language := language P |},
       [ToastSuccess (if is_de (language P)
                      then "Route aktualisiert!" else "Route updated!")])
  | Rejected =>
      (P, [ToastError (if is_de (language P)
                       then "Neuberechnung fehlgeschlagen"
                       else "Recalculation failed")])
  end.

(** ** The running system *)

(** The mounted component with its props and the planner's requests that
    have not settled yet (oldest first). *)
Record System := mkSystem {
  props : Props;
  nav : State;
  inflight : list Coords
}.

Inductive Event :=
| PositionUpdate (pos : GeoSample)     (* the [watchPosition] callback *)
| DrivingTick                          (* the 60 s interval *)
| HeadingEffect                        (* the smoothing effect of [MapFollower] *)
| MapDragged                           (* [handleUserInteraction] *)
| RecenterClicked                      (* [handleRecenter] *)
| RecalculateClicked (now : Z)         (* [handleRecalculate] *)
| IgnoreClicked                        (* [setShowRecalculatePrompt(false)] *)
| BreakUnderstood                      (* [setShowBreakWarning(false)] *)
| RoutingSettled (k : nat) (outcome : RoutingOutcome).

(** The list without its [k]-th element. *)
Fixpoint remove_nth {A : Type} (k : nat) (l : list A) : list A :=
  match l, k with
  | [], _ => []
  | _ :: tl, O => tl
  | x :: tl, S k' => x :: remove_nth k' tl
  end.

Definition step (sys : System) (e : Event) : System * list Effect :=
  let P := props sys in
  let s := nav sys in
  match e with
  | PositionUpdate pos =>
      let '(s', eff) := onPosition P s pos in
      (mkSystem P s' (inflight sys), eff)
  | DrivingTick =>
      let '(s', eff) := drivingTick s in
      (mkSystem P s' (inflight sys), eff)
  | HeadingEffect =>
      match currentPosition s with
      | Some _ =>
          (mkSystem P
             (setSmoothHeading
                (smoothStep (isFollowing s) (heading s) (smoothHeading s)) s)
             (inflight sys), [])
      | None => (sys, [])
      end
  | MapDragged => (mkSystem P (setIsFollowing false s) (inflight sys), [])
  | RecenterClicked => (mkSystem P (setIsFollowing true s) (inflight sys), [])
  | RecalculateClicked now =>
      match handleRecalculate P s now with
      | (s', Some newStart) =>
          (mkSystem P s' (inflight sys ++ [newStart]),
           [RoutingRequest newStart;
            ToastInfo (if is_de (language P)
                       then "Route wird neu berechnet..."
                       else "Recalculating route...")])
      | (s', None) => (mkSystem P s' (inflight sys), [])
      end
  | IgnoreClicked =>
      (mkSystem P (setShowRecalculatePrompt false s) (inflight sys), [])
  | BreakUnderstood =>
      (mkSystem P (setShowBreakWarning false s) (inflight sys), [])
  | RoutingSettled k outcome =>
      match nth_error (inflight sys) k with
      | Some newStart =>
          let '(P', eff) := settleRecalculate P newStart outcome in
          (mkSystem P' s (remove_nth k (inflight sys)), eff)
      | None => (sys, [])
      end
  end.

(** A run of the system over a sequence of events, with everything it did
    to the outside world, in order. *)
Fixpoint run (sys : System) (evs : list Event) : System * list Effect :=
  match evs with
  | [] => (sys, [])
  | e :: rest =>
      let '(sys1, eff1) := step sys e in
      let '(sys2, eff2) := run sys1 rest in
      (sys2, eff1 ++ eff2)
  end.

(** The system right after the component is mounted. *)
Definition mount (P : Props) : System := mkSystem P (initialState P) [].

(** The number of requests sent to the routing service. *)
Definition requests (eff : list Effect) : nat :=
  List.length
    (filter (fun x => match x with RoutingRequest _ => true | _ => false end) eff).

(** The number of break warnings raised. *)
Definition breakWarnings (eff : list Effect) : nat :=
  List.length
    (filter (fun x => match x with BreakWarning => true | _ => false end) eff).

(** The timestamps of the recalculation triggers of a trace. *)
Definition triggerTimes (evs : list Event) : list Z :=
  flat_map (fun e => match e with RecalculateClicked now => [now] | _ => [] end) evs.

(** Timestamps that are pairwise less than 30 s apart. *)
Definition closeTogether (l : list Z) : Prop :=
  forall t t', In t l -> In t' l -> (Z.abs (t - t') < 30000)%Z.

(** The number of driving-time ticks of a trace. *)
Definition ticks (evs : list Event) : Z :=
  Z.of_nat (List.length
              (filter (fun e => match e with DrivingTick => true | _ => false end) evs)).

(** ** Example sessions *)

(** A two-point route along the equator, from (0, 0) to (0, 1). *)
Definition equatorRoute : list (R * R) := [(0, 0); (0, 1)].

(** The latitude, in degrees, of the point [m] metres north of the equator. *)
Definition metresNorth (m : R) : R := m / 1000 / 6371 * 180 / PI.

(** Navigation along [equatorRoute]. *)
Definition equatorProps : Props :=
  {| route := Some equatorRoute;
     startCoords := Some (mkCoords 0 0);
     endCoords := Some (mkCoords 0 1);
     totalDistance := Some 111.2;
     totalDuration := Some 95;
     waypoints := [];
     onRecalculateRoute := true;
     language := "en" |}.

(** A reading [m] metres north of the middle of [equatorRoute]: the foot of
    the perpendicular is (0, 0.5), a point of the segment. *)
Definition sampleBeside (m : R) : GeoSample :=
  {| latitude := metresNorth m; longitude := 0.5;
     g_heading := None; g_speed := None |}.

(** A trip north along the meridian of 10 degrees east, from (48, 10) to
    (50, 10), with one stop at (49, 10). *)
Definition meridianProps : Props :=
  {| route := Some [(48, 10); (49, 10); (50, 10)];
     startCoords := Some (mkCoords 48 10);
     endCoords := Some (mkCoords 50 10);
     totalDistance := Some 222.4;
     totalDuration := Some 190;
     waypoints :=
       [ {| wp_text := Some "Rasthof"%string; wp_name := None;
            wp_coords := Some (mkCoords 49 10);
            wp_lat := None; wp_lon := None; wp_isRestStop := true |} ];
     onRecalculateRoute := true;
     language := "en" |}.

(** A reading on that meridian at latitude [lat], moving at [v] m/s. *)
Definition meridianSample (lat v : R) : GeoSample :=
  {| latitude := lat; longitude := 10; g_heading := Some 0; g_speed := Some v |}.

(** A mounted session that has been flagged off route. *)
Definition flaggedSystem : System :=
  mkSystem meridianProps
    (setShowRecalculatePrompt true (setIsOffRoute true (initialState meridianProps)))
    [].

(** ** Notions used to state further properties of the engine *)

(** [normalizedDiff] of the smoothing effect: the angle between the raw and
    the smoothed heading, taken the short way round. *)
Definition normalizedDiff (h smooth : R) : R :=
  let diff := Rabs (h - smooth) in
  if Rgt_dec diff 180 then 360 - diff else diff.


(** The figures the bottom bar shows are not negative. *)
Definition displayedNonneg (s : State) : Prop :=
  0 <= remainingDistance s /\ 0 <= remainingTime s
  /\ 0 <= distanceToNextWaypoint s /\ 0 <= timeToNextWaypoint s.

(** A prop that is absent or not negative. *)
Definition nonnegProp (v : option R) : Prop :=
  match v with Some x => 0 <= x | None => True end.

(** ** What the component shows *)

(** A whole number as a template literal prints it. *)
Definition showInt (z : Z) : string := NilZero.string_of_int (Z.to_int z).

(** [currentTrafficStatus], from the [trafficDelay] prop (minutes). *)
Inductive TrafficStatus := heavy | slow | normal.

Definition currentTrafficStatus (trafficDelay : R) : TrafficStatus :=
  if Rgt_dec trafficDelay 20 then heavy
  else if Rgt_dec trafficDelay 5 then slow
  else normal.

(** How bad a traffic status is. *)
Definition severity (st : TrafficStatus) : nat :=
  match st with normal => 0 | slow => 1 | heavy => 2 end.

(** [fmtTime (min)]. *)
Definition fmtTime (min : R) : string :=
  let h := Zfloor (min / 60) in
  let m := JS.Math_round (JS.rem min 60) in
  if (h =? 0)%Z
  then (showInt m ++ " min")%string
  else (showInt h ++ " h " ++ showInt m ++ " min")%string.

(** The digits of [x.toFixed(1)] for [x] that is not negative. *)
Definition fixedDigits1 (x : R) : string :=
  let n := JS.Math_round (x * 10) in
  (showInt (n / 10) ++ "." ++ showInt (n mod 10))%string.

(** [x.toFixed(1)], for numbers below 1e21. *)
Definition toFixed1String (x : R) : string :=
  if Rlt_dec x 0 then ("-" ++ fixedDigits1 (- x))%string else fixedDigits1 x.

(** [fmtDist (km)]. *)
Definition fmtDist (km : R) : string :=
  if Rlt_dec km 1
  then (showInt (JS.Math_round (km * 1000)) ++ " m")%string
  else (toFixed1String km ++ " km")%string.

(** [fmtDistM (m)]. *)
Definition fmtDistM (m : R) : string :=
  if Rlt_dec m 1000
  then (showInt (JS.Math_round m) ++ " m")%string
  else (toFixed1String (m / 1000) ++ " km")%string.

(** A number of whole minutes, not negative. *)
Definition wholeMinutes (x : R) : Prop := exists n : Z, (0 <= n)%Z /\ x = IZR n.

(** The bottom sheet: [bottomSheetExpanded] is [None] when hidden,
    [Some false] when collapsed and [Some true] when expanded; [touchStart]
    is the [clientY] at which the current touch began. *)
Record Sheet := mkSheet {
  bottomSheetExpanded : option bool;
  touchStart : option R
}.

Definition handleTouchStart (clientY : R) (u : Sheet) : Sheet :=
  mkSheet (bottomSheetExpanded u) (Some clientY).

Definition handleTouchMove (clientY : R) (u : Sheet) : Sheet :=
  if negb (JS.truthy (touchStart u)) then u
  else
    match touchStart u with
    | None => u
    | Some y0 =>
        let diff := y0 - clientY in
        if Rgt_dec diff 40 then
          mkSheet (match bottomSheetExpanded u with
                   | None => Some false
                   | Some false => Some true
                   | Some true => Some true
                   end) None
        else if Rlt_dec diff (- 40) then
          mkSheet (match bottomSheetExpanded u with
                   | Some true => Some false
                   | Some false => None
                   | None => None
                   end) None
        else u
    end.

Definition handleTouchEnd (u : Sheet) : Sheet :=
  mkSheet (bottomSheetExpanded u) None.

(** One touch: it begins at [y0], moves through [ys] and ends. *)
Definition touchGesture (y0 : R) (ys : list R) (u : Sheet) : Sheet :=
  handleTouchEnd
    (fold_left (fun v y => handleTouchMove y v) ys (handleTouchStart y0 u)).

(** How far a panel is open: hidden, collapsed, expanded. *)
Definition openLevel (b : option bool) : Z :=
  match b with None => 0 | Some false => 1 | Some true => 2 end.

(** The times the component passes to [fmtTime] are whole minutes. *)
Definition timesWhole (s : State) : Prop :=
  wholeMinutes (remainingTime s) /\ wholeMinutes (timeToNextWaypoint s)
  /\ wholeMinutes (IZR (drivingTime s)).

(** ** The route planner page

    The page that mounts the navigation component: its waypoint list, its
    break suggestions, its search for rest stops along the route and its
    results panel. *)

(** An entry of the planner's [waypoints] state.  Fields that an entry
    does not carry are [None] (or [false] for the rest-stop flag). *)
Record PlannerWaypoint := mkPlannerWaypoint {
  pw_text : string;
  pw_address : option string;
  pw_coords : option Coords;
  pw_km_on_route : option R;
  pw_isRestStop : bool;
  pw_rest_stop_name : option string;
  pw_rest_stop_address : option string
}.














(** The selected route as the planner keeps it, with [distance_km] already
    read by [parseFloat]. *)
Record PlannerRoute := mkPlannerRoute {
  pr_geometry : list (R * R);
  pr_distance_km : R;
  pr_duration_minutes : R
}.



Section PlannerText.

(** [parseFloat] on the text of the input field ([None] for [NaN]) and the
    printing of a number in a template literal are taken as given. *)
Variable parseFloat : string -> option R.
Variable showNumber : R -> string.


(** The index at which [addRestStopAsWaypoint] inserts: before the first
    waypoint that has coordinates and a route position beyond [breakKm]. *)
Fixpoint findInsertIndex (breakKm : R) (ws : list PlannerWaypoint) (i : nat)
  : option nat :=
  match ws with
  | [] => None
  | wp :: rest =>
      match pw_coords wp, pw_km_on_route wp with
      | Some _, Some km =>
          if Rlt_dec breakKm km then Some i
          else findInsertIndex breakKm rest (S i)
      | _, _ => findInsertIndex breakKm rest (S i)
      end
  end.


End PlannerText.


(** [formatDuration (minutes)]. *)
Definition formatDuration (minutes : R) : string :=
  let h := Zfloor (minutes / 60) in
  let m := JS.Math_round (JS.rem minutes 60) in
  if (0 <? h)%Z
  then (showInt h ++ "h " ++ showInt m ++ "min")%string
  else (showInt m ++ "min")%string.

(** *** The search for rest stops along the route *)

(** The loop [for (let i = 0; i < totalPoints; i += sampleInterval)] of
    [searchAllRestStopsOnRoute]: the indices it visits from [i] on.  The
    loop runs at most [totalPoints] times, which bounds the recursion. *)
Fixpoint sampleFrom (fuel i sampleInterval totalPoints : nat) : list nat :=
  match fuel with
  | O => []
  | S fuel' =>
      if (i <? totalPoints)%nat
      then i :: sampleFrom fuel' (i + sampleInterval) sampleInterval totalPoints
      else []
  end.

(** The indices of the route points around which rest stops are searched. *)
Definition sampleIndices (totalPoints : nat) : list nat :=
  let sampleInterval := Nat.max 1 (totalPoints / 10) in
  sampleFrom totalPoints 0 sampleInterval totalPoints.

(** The distance in degrees that the search uses between a route point and
    a place. *)
Definition degreeDist (lat lon : R) (point : R * R) : R :=
  sqrt ((fst point - lat) ^ 2 + (snd point - lon) ^ 2).

(** The [forEach] that finds the route point nearest to a place: [idx] is
    the index of the head of [pts], [minDist] is [None] while it is still
    [Infinity]. *)
Fixpoint nearestScan (lat lon : R) (pts : list (R * R)) (idx : nat)
  (minDist : option R) (nearestIndex : nat) : nat :=
  match pts with
  | [] => nearestIndex
  | point :: rest =>
      let dist := degreeDist lat lon point in
      match minDist with
      | None => nearestScan lat lon rest (S idx) (Some dist) idx
      | Some m =>
          if Rlt_dec dist m
          then nearestScan lat lon rest (S idx) (Some dist) idx
          else nearestScan lat lon rest (S idx) (Some m) nearestIndex
      end
  end.

Definition nearestIndex (geometry : list (R * R)) (lat lon : R) : nat :=
  nearestScan lat lon geometry 0 None 0.

(** [kmOnRoute] of a place. *)
Definition kmOnRoute (r : PlannerRoute) (lat lon : R) : Z :=
  JS.Math_round
    (INR (nearestIndex (pr_geometry r) lat lon) / INR (List.length (pr_geometry r))
     * pr_distance_km r).

(** A rest stop found along the route. *)
Record RestStop := mkRestStop {
  rs_name : string;
  rs_lat : R;
  rs_lon : R;
  km_on_route : Z;
  has_fuel : bool;
  has_restaurant : bool;
  has_shower : bool;
  has_parking : bool;
  rs_type : string
}.

(** [.sort((a, b) => a.km_on_route - b.km_on_route)]: the sort is stable,
    so it is the insertion of each stop, from the last to the first,
    before the first one that does not lie nearer to the start. *)
Fixpoint insertByKm (x : RestStop) (l : list RestStop) : list RestStop :=
  match l with
  | [] => [x]
  | y :: tl =>
      if (km_on_route y <? km_on_route x)%Z
      then y :: insertByKm x tl
      else x :: y :: tl
  end.

Fixpoint sortByKm (l : list RestStop) : list RestStop :=
  match l with
  | [] => []
  | x :: tl => insertByKm x (sortByKm tl)
  end.

(** The last [.filter] of the search: a stop stays when none of the stops
    before it in the sorted array ([before]) is less than 8 km from it. *)
Fixpoint spacedFrom (before rest : list RestStop) : list RestStop :=
  match rest with
  | [] => []
  | stop :: tl =>
      if existsb (fun s => (Z.abs (km_on_route s - km_on_route stop) <? 8)%Z) before
      then spacedFrom (before ++ [stop]) tl
      else stop :: spacedFrom (before ++ [stop]) tl
  end.

(** The stops that [searchAllRestStopsOnRoute] stores, from the places
    found. *)
Definition restStopsOnRoute (found : list RestStop) : list RestStop :=
  spacedFrom [] (sortByKm found).

(** *** The results panel *)

(** [panelExpanded] is [None] when hidden, [Some false] when collapsed and
    [Some true] when expanded. *)
Record Panel := mkPanel {
  panelExpanded : option bool;
  touchStartY : option R
}.

Definition handleResultsTouchStart (clientY : R) (u : Panel) : Panel :=
  mkPanel (panelExpanded u) (Some clientY).

Definition handleResultsTouchMove (clientY : R) (u : Panel) : Panel :=
  match touchStartY u with
  | None => u
  | Some y0 =>
      let diff := y0 - clientY in
      if Rgt_dec diff 40 then
        mkPanel (match panelExpanded u with
                 | None => Some false
                 | Some false => Some true
                 | Some true => Some true
                 end) None
      else if Rlt_dec diff (- 40) then
        mkPanel (match panelExpanded u with
                 | Some true => Some false
                 | Some false => None
                 | None => None
                 end) None
      else u
  end.

Definition handleResultsTouchEnd (u : Panel) : Panel :=
  mkPanel (panelExpanded u) None.

(** [handlePanelClick ()]. *)
Definition handlePanelClick (u : Panel) : Panel :=
  mkPanel (match panelExpanded u with
           | None => Some false
           | Some false => Some true
           | Some true => Some false
           end) (touchStartY u).

(** One touch on the results panel. *)
Definition panelGesture (y0 : R) (ys : list R) (u : Panel) : Panel :=
  handleResultsTouchEnd
    (fold_left (fun v y => handleResultsTouchMove y v) ys
       (handleResultsTouchStart y0 u)).

(** What the user does to the results panel: a click on its handle, or one
    touch that begins at [y0] and moves through [ys]. *)
Inductive PanelAction :=
| PanelClick
| PanelSwipe (y0 : R) (ys : list R).

Definition applyPanelAction (a : PanelAction) (u : Panel) : Panel :=
  match a with
  | PanelClick => handlePanelClick u
  | PanelSwipe y0 ys => panelGesture y0 ys u
  end.

(** *** The planner and the navigation component *)



(** ** Example planner data *)

(** The planner's route for the meridian trip. *)
Definition meridianPlan : PlannerRoute :=
  mkPlannerRoute [(48, 10); (49, 10); (50, 10)] 222.4 190.

(** The routing service's answer for that trip, as [lon, lat] pairs. *)
Definition meridianAnswer : MainRoute :=
  mkMainRoute (Some [(10, 48); (10, 49); (10, 50)]) (Some 222.4) (Some 190).


(** Navigation opened without a route. *)
Definition noRouteProps : Props :=
  {| route := None;
     startCoords := Some (mkCoords 48 10);
     endCoords := Some (mkCoords 50 10);
     totalDistance := None;
     totalDuration := None;
     waypoints := [];
     onRecalculateRoute := true;
     language := "de" |}.

(** * Properties *)

(** Case analysis on every [match] and [if] of the goal. *)
Ltac break_match :=
  repeat match goal with
         | |- context [match ?x with _ => _ end] => destruct x
         end.

(** ** What the position callback leaves alone *)

Lemma trackWaypoint_frame (P : Props) (c : State) (pos : GeoSample) (s : State) :
  let s' := fst (trackWaypoint P c pos s) in
  lastRecalculateTime s' = lastRecalculateTime s
  /\ drivingTime s' = drivingTime s
  /\ isOffRoute s' = isOffRoute s
  /\ progressPercent s' = progressPercent s.
Proof.
  unfold trackWaypoint. break_match; simpl; auto.
Qed.

Lemma trackWaypoint_toasts (P : Props) (c : State) (pos : GeoSample) (s : State) :
  Forall (fun x => exists msg, x = ToastSuccess msg) (snd (trackWaypoint P c pos s)).
Proof.
  unfold trackWaypoint. break_match; simpl; auto;
    constructor; eauto.
Qed.

Lemma onPosition_frame (P : Props) (s : State) (pos : GeoSample) :
  let s' := fst (onPosition P s pos) in
  lastRecalculateTime s' = lastRecalculateTime s
  /\ drivingTime s' = drivingTime s.
Proof.
  unfold onPosition.
  pose proof (trackWaypoint_frame P s pos (recordReading pos s)) as Hw.
  destruct (trackWaypoint P s pos (recordReading pos s)) as [s2 toasts].
  simpl in *. destruct Hw as (H1 & H2 & _).
  unfold trackOffRoute, trackTrip.
  assert (lastRecalculateTime (recordReading pos s) = lastRecalculateTime s
          /\ drivingTime (recordReading pos s) = drivingTime s) as [H3 H4]
    by (unfold recordReading; break_match; simpl; auto).
  break_match; simpl; split; congruence.
Qed.

Lemma onPosition_effects (P : Props) (s : State) (pos : GeoSample) :
  requests (snd (onPosition P s pos)) = 0%nat
  /\ breakWarnings (snd (onPosition P s pos)) = 0%nat.
Proof.
  unfold onPosition.
  pose proof (trackWaypoint_toasts P s pos (recordReading pos s)) as Hw.
  destruct (trackWaypoint P s pos (recordReading pos s)) as [s2 toasts].
  simpl in *. induction Hw as [| x l [msg ->] _ IH]; simpl; auto.
Qed.

(** The off-route flag after a sample: the callback can only raise it. *)
Lemma onPosition_isOffRoute (P : Props) (s : State) (pos : GeoSample) :
  isOffRoute (fst (onPosition P s pos))
  = isOffRoute s || checkIfOffRoute (route P) (latitude pos) (longitude pos).
Proof.
  unfold onPosition.
  pose proof (trackWaypoint_frame P s pos (recordReading pos s)) as Hw.
  destruct (trackWaypoint P s pos (recordReading pos s)) as [s2 toasts].
  simpl in *. destruct Hw as (_ & _ & Hoff & _).
  assert (isOffRoute (recordReading pos s) = isOffRoute s) as Hr
    by (unfold recordReading; break_match; reflexivity).
  assert (isOffRoute (trackTrip P s pos s2) = isOffRoute s) as Ht
    by (unfold trackTrip; break_match; simpl; congruence).
  unfold trackOffRoute.
  destruct (checkIfOffRoute (route P) (latitude pos) (longitude pos));
    destruct (isOffRoute s); simpl; auto.
Qed.

(** The waypoint index after a sample: unchanged, or advanced by one on
    arrival (less than 200 m from the current destination) when it was not
    the last index. *)
Lemma onPosition_index (P : Props) (s : State) (pos : GeoSample) :
  let i := currentWaypointIndex s in
  let i' := currentWaypointIndex (fst (onPosition P s pos)) in
  i' = i
  \/ (i' = (i + 1)%nat
      /\ (i + 1 < List.length (allDestinations P))%nat
      /\ exists d dlat dlon,
           currentDestination P s = Some d
           /\ d_lat d = Some dlat /\ d_lon d = Some dlon
           /\ calcDist (latitude pos) (longitude pos) dlat dlon < 0.2).
Proof.
  unfold onPosition.
  assert (currentWaypointIndex (recordReading pos s) = currentWaypointIndex s) as Hr
    by (unfold recordReading; break_match; reflexivity).
  assert (Hw : let i' := currentWaypointIndex
                           (fst (trackWaypoint P s pos (recordReading pos s))) in
               i' = currentWaypointIndex s
               \/ (i' = (currentWaypointIndex s + 1)%nat
                   /\ (currentWaypointIndex s + 1 < List.length (allDestinations P))%nat
                   /\ exists d dlat dlon,
                        currentDestination P s = Some d
                        /\ d_lat d = Some dlat /\ d_lon d = Some dlon
                        /\ calcDist (latitude pos) (longitude pos) dlat dlon < 0.2)).
  { unfold trackWaypoint.
    destruct (currentDestination P s) as [d |]; [| left; exact Hr].
    destruct (d_lat d) as [dlat |] eqn:Hlat; [| left; exact Hr].
    destruct (d_lon d) as [dlon |] eqn:Hlon; [| left; exact Hr].
    destruct (JS.truthy (Some dlat) && JS.truthy (Some dlon)); [| left; exact Hr].
    destruct (Rlt_dec _ 0.2) as [Hnear |]; [| left; exact Hr].
    destruct (_ <? _)%Z eqn:Hlast; [| left; exact Hr].
    right. simpl. rewrite Hr. apply Z.ltb_lt in Hlast.
    split; [reflexivity |]. split; [lia |].
    exists d, dlat, dlon. auto. }
  destruct (trackWaypoint P s pos (recordReading pos s)) as [s2 toasts].
  simpl in *.
  assert (currentWaypointIndex (trackOffRoute P s pos (trackTrip P s pos s2))
          = currentWaypointIndex s2) as ->
    by (unfold trackOffRoute, trackTrip; break_match; reflexivity).
  exact Hw.
Qed.

Lemma remove_nth_length {A : Type} (k : nat) (l : list A) :
  (List.length (remove_nth k l) <= List.length l)%nat.
Proof.
  revert k. induction l as [| x l IH]; intros [| k]; simpl; auto.
  specialize (IH k). lia.
Qed.

(** ** The recalculation gate *)

Section RecalculationGate.

Variable P : Props.

(** A trigger is accepted exactly when the callback was passed, a position
    is known and more than 30 s have passed since the last accepted one. *)
Lemma handleRecalculate_accepted (s : State) (now : Z) (s' : State) (p : Coords) :
  handleRecalculate P s now = (s', Some p) ->
  onRecalculateRoute P = true /\ currentPosition s = Some p /\
  (now - lastRecalculateTime s > 30000)%Z /\
  s' = setShowRecalculatePrompt false
         (setIsOffRoute false (setLastRecalculateTime now s)).
Proof.
  unfold handleRecalculate.
  destruct (onRecalculateRoute P); [| discriminate].
  destruct (currentPosition s) as [q |]; [| discriminate].
  destruct (now - lastRecalculateTime s >? 30000)%Z eqn:Hgap; [| discriminate].
  intros H; inversion H; subst.
  apply Z.gtb_lt in Hgap. repeat split; auto; lia.
Qed.

(** A trigger that is not accepted changes nothing. *)
Lemma handleRecalculate_dropped (s : State) (now : Z) (s' : State) :
  handleRecalculate P s now = (s', None) -> s' = s.
Proof.
  unfold handleRecalculate.
  destruct (onRecalculateRoute P); [| now inversion 1].
  destruct (currentPosition s); [| now inversion 1].
  destruct (now - lastRecalculateTime s >? 30000)%Z; [discriminate | now inversion 1].
Qed.

Lemma handleRecalculate_cooldown (s : State) (now : Z) :
  (now - lastRecalculateTime s <= 30000)%Z ->
  handleRecalculate P s now = (s, None).
Proof.
  intros Hgap. unfold handleRecalculate.
  destruct (onRecalculateRoute P); [| reflexivity].
  destruct (currentPosition s); [| reflexivity].
  destruct (now - lastRecalculateTime s >? 30000)%Z eqn:E; [| reflexivity].
  apply Z.gtb_lt in E. lia.
Qed.

End RecalculationGate.

(** Only [handleRecalculate] writes the ref, sends requests and adds to the
    requests in flight. *)
Lemma step_other (sys : System) (e : Event) :
  (forall now, e <> RecalculateClicked now) ->
  lastRecalculateTime (nav (fst (step sys e))) = lastRecalculateTime (nav sys)
  /\ requests (snd (step sys e)) = 0%nat
  /\ (List.length (inflight (fst (step sys e))) <= List.length (inflight sys))%nat.
Proof.
  intros Hne. destruct e; simpl.
  - pose proof (onPosition_frame (props sys) (nav sys) pos) as [H1 _].
    pose proof (onPosition_effects (props sys) (nav sys) pos) as [H2 _].
    destruct (onPosition (props sys) (nav sys) pos); simpl in *; auto.
  - unfold drivingTick. destruct (drivingTime (nav sys) + 1 =? 240)%Z; simpl; auto.
  - destruct (currentPosition (nav sys)); simpl; auto.
  - auto.
  - auto.
  - exfalso. apply (Hne now). reflexivity.
  - auto.
  - auto.
  - destruct (nth_error (inflight sys) k) as [newStart |]; simpl; auto.
    pose proof (remove_nth_length k (inflight sys)).
    destruct outcome; simpl; auto.
Qed.

Lemma requests_app (a b : list Effect) :
  requests (a ++ b) = (requests a + requests b)%nat.
Proof.
  unfold requests. rewrite filter_app, length_app. reflexivity.
Qed.

Lemma run_cons (sys : System) (e : Event) (evs : list Event) :
  run sys (e :: evs)
  = (fst (run (fst (step sys e)) evs),
     snd (step sys e) ++ snd (run (fst (step sys e)) evs)).
Proof.
  simpl. destruct (step sys e) as [sys1 eff1]. simpl.
  destruct (run sys1 evs) as [sys2 eff2]. reflexivity.
Qed.

Lemma trigger_or_not (e : Event) :
  (exists now, e = RecalculateClicked now)
  \/ (forall now, e <> RecalculateClicked now).
Proof.
  destruct e; try (right; intros; discriminate). left; eauto.
Qed.

(** What one trigger does to the system. *)
Lemma step_trigger (sys : System) (now : Z) :
  (exists p,
      handleRecalculate (props sys) (nav sys) now
      = (setShowRecalculatePrompt false
           (setIsOffRoute false (setLastRecalculateTime now (nav sys))), Some p)
      /\ (now - lastRecalculateTime (nav sys) > 30000)%Z
      /\ requests (snd (step sys (RecalculateClicked now))) = 1%nat
      /\ lastRecalculateTime (nav (fst (step sys (RecalculateClicked now)))) = now
      /\ inflight (fst (step sys (RecalculateClicked now))) = inflight sys ++ [p])
  \/ step sys (RecalculateClicked now) = (sys, []).
Proof.
  simpl.
  destruct (handleRecalculate (props sys) (nav sys) now) as [s' [p |]] eqn:H.
  - left. exists p.
    apply handleRecalculate_accepted in H as (_ & _ & Hgap & ->).
    simpl. repeat split; auto.
  - right. apply handleRecalculate_dropped in H. subst. destruct sys; reflexivity.
Qed.

(** While every trigger falls within 30 s of the last accepted one, none is
    passed on and nothing is queued. *)
Lemma run_cooling (evs : list Event) : forall sys : System,
  (forall t, In t (triggerTimes evs) ->
             (t - lastRecalculateTime (nav sys) <= 30000)%Z) ->
  requests (snd (run sys evs)) = 0%nat
  /\ (List.length (inflight (fst (run sys evs))) <= List.length (inflight sys))%nat.
Proof.
  induction evs as [| e evs IH]; intros sys Hwin.
  - simpl. auto.
  - rewrite run_cons. simpl fst; simpl snd. rewrite requests_app.
    assert (Hstep :
      lastRecalculateTime (nav (fst (step sys e))) = lastRecalculateTime (nav sys)
      /\ requests (snd (step sys e)) = 0%nat
      /\ (List.length (inflight (fst (step sys e))) <= List.length (inflight sys))%nat).
    { destruct (trigger_or_not e) as [[now ->] | Hne].
      - destruct (step_trigger sys now) as [(p & _ & Hgap & _) | ->].
        + specialize (Hwin now). simpl in Hwin. lia.
        + simpl. auto.
      - apply step_other. exact Hne. }
    destruct Hstep as (Hlast & Hreq & Hlen).
    destruct (IH (fst (step sys e))) as [IH1 IH2].
    + intros t Ht. rewrite Hlast. apply Hwin.
      unfold triggerTimes in *. simpl. apply in_or_app. right. exact Ht.
    + split; lia.
Qed.

(** C5 (cooldown enforcement): in any run of the system whose recalculation
    triggers are pairwise less than 30 s apart -- in particular a run with
    two triggers less than 30 s apart, whatever happens in between -- at
    most one request is sent to the routing service, and at most one
    request is added to those in flight: the other triggers are dropped,
    not queued. *)
Theorem cooldown_enforcement (evs : list Event) : forall sys : System,
  closeTogether (triggerTimes evs) ->
  (requests (snd (run sys evs)) <= 1)%nat
  /\ (List.length (inflight (fst (run sys evs)))
      <= List.length (inflight sys) + 1)%nat.
Proof.
  induction evs as [| e evs IH]; intros sys Hclose.
  - simpl. split; auto. lia.
  - rewrite run_cons. simpl fst; simpl snd. rewrite requests_app.
    assert (Htail : closeTogether (triggerTimes evs)).
    { intros t t' Ht Ht'. apply Hclose; unfold triggerTimes in *; simpl;
        apply in_or_app; right; assumption. }
    destruct (trigger_or_not e) as [[now ->] | Hne].
    + destruct (step_trigger sys now) as [(p & _ & _ & Hreq & Hlast & Hin) | ->].
      * destruct (run_cooling evs (fst (step sys (RecalculateClicked now))))
          as [C1 C2].
        { intros t Ht. rewrite Hlast.
          assert (Z.abs (t - now) < 30000)%Z.
          { apply Hclose; unfold triggerTimes; simpl; auto. }
          lia. }
        rewrite Hin, length_app in C2.
        change (List.length [p]) with 1%nat in C2. split; lia.
      * simpl. apply IH. exact Htail.
    + destruct (step_other sys e Hne) as (_ & Hreq & Hlen).
      destruct (IH (fst (step sys e)) Htail) as [IH1 IH2].
      split; lia.
Qed.

(** C10 (cooldown rejection is a no-op): a trigger that arrives 30 s or less
    after the last accepted one changes no state at all ([lastRecalculateTime],
    [isOffRoute], the prompt flag and everything else keep their values),
    adds no request to those in flight and has no effect on the outside
    world; the routing service is not called. *)
Theorem cooldown_rejection_noop (sys : System) (now : Z) :
  (now - lastRecalculateTime (nav sys) <= 30000)%Z ->
  step sys (RecalculateClicked now) = (sys, []).
Proof.
  intros Hgap. simpl.
  rewrite handleRecalculate_cooldown by exact Hgap.
  destruct sys; reflexivity.
Qed.

Lemma run_app (evs1 evs2 : list Event) : forall sys : System,
  fst (run sys (evs1 ++ evs2)) = fst (run (fst (run sys evs1)) evs2).
Proof.
  induction evs1 as [| e evs1 IH]; intros sys.
  - reflexivity.
  - rewrite <- app_comm_cons, !run_cons. simpl. apply IH.
Qed.

(** ** Off-route latching *)

(** The flag after one event: only an accepted trigger can clear it. *)
Lemma step_isOffRoute (sys : System) (e : Event) :
  isOffRoute (nav sys) = true ->
  isOffRoute (nav (fst (step sys e))) = true
  \/ exists now p,
       e = RecalculateClicked now
       /\ snd (handleRecalculate (props sys) (nav sys) now) = Some p.
Proof.
  intros Hoff. destruct e; simpl.
  - left. pose proof (onPosition_isOffRoute (props sys) (nav sys) pos) as H.
    destruct (onPosition (props sys) (nav sys) pos). simpl in *.
    rewrite H, Hoff. reflexivity.
  - left. unfold drivingTick.
    destruct (drivingTime (nav sys) + 1 =? 240)%Z; simpl; exact Hoff.
  - left. destruct (currentPosition (nav sys)); simpl; exact Hoff.
  - left. exact Hoff.
  - left. exact Hoff.
  - destruct (handleRecalculate (props sys) (nav sys) now) as [s' [p |]] eqn:H.
    + right. exists now, p. rewrite H. split; reflexivity.
    + left. apply handleRecalculate_dropped in H. subst. exact Hoff.
  - left. exact Hoff.
  - left. exact Hoff.
  - left. destruct (nth_error (inflight sys) k); simpl; [| exact Hoff].
    destruct outcome; simpl; exact Hoff.
Qed.

(** C4 (off-route latching): once [isOffRoute] is true, no sequence of
    position samples makes it false again, wherever the samples lie; and
    the only event of the component that clears it is a recalculation
    trigger that is accepted. *)
Theorem off_route_latching (sys : System) :
  isOffRoute (nav sys) = true ->
  (forall samples : list GeoSample,
      isOffRoute (nav (fst (run sys (map PositionUpdate samples)))) = true)
  /\ (forall e : Event,
         isOffRoute (nav (fst (step sys e))) = false ->
         exists now p,
           e = RecalculateClicked now
           /\ snd (handleRecalculate (props sys) (nav sys) now) = Some p).
Proof.
  intros Hoff. split.
  - intros samples. revert sys Hoff.
    induction samples as [| pos samples IH]; intros sys Hoff.
    + exact Hoff.
    + simpl map. rewrite run_cons. simpl fst. apply IH.
      destruct (step_isOffRoute sys (PositionUpdate pos) Hoff)
        as [H | (now & p & Habs & _)]; [exact H | discriminate].
  - intros e Hclear.
    destruct (step_isOffRoute sys e Hoff) as [H | H]; [congruence | exact H].
Qed.

(** ** The waypoint index *)

(** The destination list does not depend on what a settled request changes. *)
Lemma settleRecalculate_destinations (P : Props) (newStart : Coords)
  (outcome : RoutingOutcome) :
  allDestinations (fst (settleRecalculate P newStart outcome)) = allDestinations P.
Proof.
  destruct outcome; reflexivity.
Qed.

Lemma step_destinations (sys : System) (e : Event) :
  allDestinations (props (fst (step sys e))) = allDestinations (props sys).
Proof.
  destruct e; simpl; try reflexivity.
  - destruct (onPosition (props sys) (nav sys) pos); reflexivity.
  - destruct (drivingTick (nav sys)); reflexivity.
  - destruct (currentPosition (nav sys)); reflexivity.
  - destruct (handleRecalculate (props sys) (nav sys) now) as [s' [p |]]; reflexivity.
  - destruct (nth_error (inflight sys) k) as [newStart |]; [| reflexivity].
    pose proof (settleRecalculate_destinations (props sys) newStart outcome) as H.
    destruct (settleRecalculate (props sys) newStart outcome). exact H.
Qed.

(** The index after one event. *)
Lemma step_index (sys : System) (e : Event) :
  let i := currentWaypointIndex (nav sys) in
  let i' := currentWaypointIndex (nav (fst (step sys e))) in
  i' = i
  \/ (i' = (i + 1)%nat
      /\ (i + 1 < List.length (allDestinations (props sys)))%nat
      /\ exists pos d dlat dlon,
           e = PositionUpdate pos
           /\ currentDestination (props sys) (nav sys) = Some d
           /\ d_lat d = Some dlat /\ d_lon d = Some dlon
           /\ calcDist (latitude pos) (longitude pos) dlat dlon < 0.2).
Proof.
  destruct e; simpl; try (left; reflexivity).
  - pose proof (onPosition_index (props sys) (nav sys) pos) as H.
    destruct (onPosition (props sys) (nav sys) pos). simpl in *.
    destruct H as [H | (H1 & H2 & d & dlat & dlon & H3)]; [left; exact H |].
    right. split; [exact H1 |]. split; [exact H2 |].
    exists pos, d, dlat, dlon. split; [reflexivity | exact H3].
  - left. unfold drivingTick.
    destruct (drivingTime (nav sys) + 1 =? 240)%Z; reflexivity.
  - left. destruct (currentPosition (nav sys)); reflexivity.
  - left. destruct (handleRecalculate (props sys) (nav sys) now) as [s' [p |]] eqn:H.
    + apply handleRecalculate_accepted in H as (_ & _ & _ & ->). reflexivity.
    + apply handleRecalculate_dropped in H. subst. reflexivity.
  - left. destruct (nth_error (inflight sys) k); [| reflexivity].
    destruct (settleRecalculate (props sys) c outcome). reflexivity.
Qed.

Lemma run_index (evs : list Event) : forall sys : System,
  (currentWaypointIndex (nav sys) < List.length (allDestinations (props sys)))%nat ->
  (currentWaypointIndex (nav sys)
   <= currentWaypointIndex (nav (fst (run sys evs))))%nat
  /\ (currentWaypointIndex (nav (fst (run sys evs)))
      < List.length (allDestinations (props (fst (run sys evs)))))%nat.
Proof.
  induction evs as [| e evs IH]; intros sys Hvalid.
  - simpl. split; [lia | exact Hvalid].
  - rewrite run_cons. simpl fst.
    pose proof (step_index sys e) as Hstep. simpl in Hstep.
    pose proof (step_destinations sys e) as Hdest.
    destruct (IH (fst (step sys e))) as [IH1 IH2].
    + rewrite Hdest. destruct Hstep as [-> | (-> & Hlt & _)]; lia.
    + split; [| exact IH2].
      destruct Hstep as [Heq | (Heq & _)]; rewrite Heq in IH1; lia.
Qed.

(** C7 (waypoint-index invariant): in a session whose index is a valid index
    into the destination list, over every sequence of events -- position
    samples and all others -- [currentWaypointIndex] never decreases from
    one point of the run to a later one and stays a valid index into the
    destination list; a single event changes it only by advancing it by
    one, on a position sample that is less than 200 m from the current
    destination while the index is not yet the last one. *)
Theorem waypoint_index_invariant (sys : System) (evs1 evs2 : list Event) :
  (currentWaypointIndex (nav sys) < List.length (allDestinations (props sys)))%nat ->
  let before := fst (run sys evs1) in
  let after := fst (run sys (evs1 ++ evs2)) in
  (currentWaypointIndex (nav before) <= currentWaypointIndex (nav after))%nat
  /\ (currentWaypointIndex (nav after)
      < List.length (allDestinations (props after)))%nat
  /\ (forall e : Event,
         currentWaypointIndex (nav (fst (step before e)))
         <> currentWaypointIndex (nav before) ->
         currentWaypointIndex (nav (fst (step before e)))
         = (currentWaypointIndex (nav before) + 1)%nat
         /\ (currentWaypointIndex (nav before) + 1
             < List.length (allDestinations (props before)))%nat
         /\ exists pos d dlat dlon,
              e = PositionUpdate pos
              /\ currentDestination (props before) (nav before) = Some d
              /\ d_lat d = Some dlat /\ d_lon d = Some dlon
              /\ calcDist (latitude pos) (longitude pos) dlat dlon < 0.2).
Proof.
  intros Hvalid before after.
  destruct (run_index evs1 sys Hvalid) as [_ Hmid].
  fold before in Hmid.
  destruct (run_index evs2 before Hmid) as [Hmono Hafter].
  unfold after. rewrite run_app. fold before.
  split; [exact Hmono |]. split; [exact Hafter |].
  intros e Hchange.
  destruct (step_index before e) as [H | H]; [contradiction | exact H].
Qed.

(** ** The break warning *)

Lemma breakWarnings_app (a b : list Effect) :
  breakWarnings (a ++ b) = (breakWarnings a + breakWarnings b)%nat.
Proof.
  unfold breakWarnings. rewrite filter_app, length_app. reflexivity.
Qed.

(** The counter and the warning after one event. *)
Lemma step_drivingTime (sys : System) (e : Event) :
  let d := drivingTime (nav sys) in
  match e with
  | DrivingTick =>
      drivingTime (nav (fst (step sys e))) = (d + 1)%Z
      /\ breakWarnings (snd (step sys e)) = if (d + 1 =? 240)%Z then 1%nat else 0%nat
  | _ =>
      drivingTime (nav (fst (step sys e))) = d
      /\ breakWarnings (snd (step sys e)) = 0%nat
  end.
Proof.
  destruct e; simpl; auto.
  - pose proof (onPosition_frame (props sys) (nav sys) pos) as [_ H1].
    pose proof (onPosition_effects (props sys) (nav sys) pos) as [_ H2].
    destruct (onPosition (props sys) (nav sys) pos); simpl in *; auto.
  - unfold drivingTick. destruct (drivingTime (nav sys) + 1 =? 240)%Z; simpl; auto.
  - destruct (currentPosition (nav sys)); simpl; auto.
  - destruct (handleRecalculate (props sys) (nav sys) now) as [s' [p |]] eqn:H.
    + apply handleRecalculate_accepted in H as (_ & _ & _ & ->). simpl. auto.
    + apply handleRecalculate_dropped in H. subst. simpl. auto.
  - destruct (nth_error (inflight sys) k); simpl; auto.
    destruct outcome; simpl; auto.
Qed.

Lemma ticks_cons (e : Event) (evs : list Event) :
  ticks (e :: evs)
  = (match e with DrivingTick => 1 | _ => 0 end + ticks evs)%Z.
Proof.
  unfold ticks. destruct e; cbn [filter List.length]; lia.
Qed.

Lemma ticks_nonneg (evs : list Event) : (0 <= ticks evs)%Z.
Proof. unfold ticks. lia. Qed.

Lemma run_drivingTime (evs : list Event) : forall sys : System,
  let d := drivingTime (nav sys) in
  drivingTime (nav (fst (run sys evs))) = (d + ticks evs)%Z
  /\ breakWarnings (snd (run sys evs))
     = if ((d <? 240) && (240 <=? d + ticks evs))%Z then 1%nat else 0%nat.
Proof.
  induction evs as [| e evs IH]; intros sys d.
  - simpl. unfold ticks. simpl. split; [lia |].
    destruct (d <? 240)%Z eqn:H1; destruct (240 <=? d + 0)%Z eqn:H2; simpl; auto.
    apply Z.ltb_lt in H1. apply Z.leb_le in H2. lia.
  - rewrite run_cons. simpl fst; simpl snd. rewrite breakWarnings_app, ticks_cons.
    pose proof (ticks_nonneg evs) as Hn.
    pose proof (step_drivingTime sys e) as Hstep. simpl in Hstep. fold d in Hstep.
    destruct (IH (fst (step sys e))) as [IH1 IH2].
    rewrite IH1, IH2.
    destruct e; destruct Hstep as [-> ->]; (split; [lia |]).
    all: repeat match goal with
           | |- context [(?a <? ?b)%Z] => destruct (Z.ltb_spec a b)
           | |- context [(?a <=? ?b)%Z] => destruct (Z.leb_spec a b)
           | |- context [(?a =? ?b)%Z] => destruct (Z.eqb_spec a b)
           end; simpl; lia.
Qed.

(** The position callback never touches the break warning. *)
Lemma onPosition_showBreakWarning (P : Props) (s : State) (pos : GeoSample) :
  showBreakWarning (fst (onPosition P s pos)) = showBreakWarning s.
Proof.
  unfold onPosition.
  assert (Hw : showBreakWarning (fst (trackWaypoint P s pos (recordReading pos s)))
               = showBreakWarning s).
  { unfold trackWaypoint, recordReading. break_match; reflexivity. }
  destruct (trackWaypoint P s pos (recordReading pos s)) as [s2 toasts].
  cbn [fst] in *. rewrite <- Hw.
  unfold trackOffRoute, trackTrip. break_match; reflexivity.
Qed.

(** [showBreakWarning] after one event: only the tick that brings the
    counter to 240 sets it, only the "understood" button clears it. *)
Lemma step_showBreakWarning (sys : System) (e : Event) :
  showBreakWarning (nav (fst (step sys e)))
  = match e with
    | DrivingTick =>
        if (drivingTime (nav sys) + 1 =? 240)%Z then true
        else showBreakWarning (nav sys)
    | BreakUnderstood => false
    | _ => showBreakWarning (nav sys)
    end.
Proof.
  destruct e; cbn [step]; cbv zeta; try reflexivity.
  - pose proof (onPosition_showBreakWarning (props sys) (nav sys) pos) as H.
    destruct (onPosition (props sys) (nav sys) pos); exact H.
  - unfold drivingTick. destruct (drivingTime (nav sys) + 1 =? 240)%Z; reflexivity.
  - destruct (currentPosition (nav sys)); reflexivity.
  - destruct (handleRecalculate (props sys) (nav sys) now) as [s' [p |]] eqn:H.
    + apply handleRecalculate_accepted in H as (_ & _ & _ & ->). reflexivity.
    + apply handleRecalculate_dropped in H. subst. reflexivity.
  - destruct (nth_error (inflight sys) k); [| reflexivity].
    destruct (settleRecalculate (props sys) c outcome); reflexivity.
Qed.

(** [showBreakWarning] over a run: it stays false while the counter has not
    reached 240 and once the counter is past it, and it is true after the
    counter has reached 240 until the warning is dismissed. *)
Lemma run_showBreakWarning (evs : list Event) : forall sys : System,
  let d := drivingTime (nav sys) in
  (showBreakWarning (nav sys) = false ->
   (d + ticks evs < 240)%Z \/ (240 <= d)%Z ->
   showBreakWarning (nav (fst (run sys evs))) = false)
  /\ ((forall e, In e evs -> e <> BreakUnderstood) ->
      showBreakWarning (nav sys) = true \/ (d < 240 <= d + ticks evs)%Z ->
      showBreakWarning (nav (fst (run sys evs))) = true).
Proof.
  induction evs as [| e evs IH]; intros sys d.
  - cbn [run fst]. unfold ticks. cbn [filter List.length Z.of_nat]. split.
    + intros H _. exact H.
    + intros _ [H | H]; [exact H | lia].
  - rewrite run_cons. cbn [fst]. rewrite ticks_cons.
    pose proof (ticks_nonneg evs) as Hn.
    pose proof (step_drivingTime sys e) as Hd. cbv zeta in Hd. fold d in Hd.
    pose proof (step_showBreakWarning sys e) as Hf. fold d in Hf.
    destruct (IH (fst (step sys e))) as [IHf IHt]. cbv zeta in IHf, IHt.
    split.
    + intros Hoff Hrange. apply IHf.
      * rewrite Hf. destruct e; try exact Hoff; try reflexivity.
        destruct (Z.eqb_spec (d + 1) 240); [lia | exact Hoff].
      * destruct e; destruct Hd as [-> _]; lia.
    + intros Hkeep Hrange. apply IHt.
      * intros e' Hin. apply Hkeep. right. exact Hin.
      * destruct e; destruct Hd as [Hd _]; rewrite Hd, Hf;
          try (destruct Hrange as [Hon | Hcross]; [left; exact Hon | right; lia]).
        -- destruct (Z.eqb_spec (d + 1) 240) as [Heq | Hne].
           ++ left. reflexivity.
           ++ destruct Hrange as [Hon | Hcross]; [left; exact Hon | right; lia].
        -- exfalso. apply (Hkeep BreakUnderstood); [left |]; reflexivity.
Qed.

(** C9 (break-warning one-shot): over any run from the mounted component the
    driving-time counter equals the number of 60 s ticks so far (nothing in
    the component resets it), and a tick raises the warning -- it sets
    [showBreakWarning] -- exactly when it brings the counter to 240; every
    other tick leaves [showBreakWarning] as it is.  So the warning is not
    shown before the 240th tick, it is shown by the 240th tick and stays
    shown until it is dismissed, and once it has been dismissed no later
    tick or other event shows it again: it is raised once, and the tick to
    241 and all later ticks raise none. *)
Theorem break_warning_one_shot (P : Props) (evs : list Event) :
  let shown := fun l => showBreakWarning (nav (fst (run (mount P) l))) in
  drivingTime (nav (fst (run (mount P) evs))) = ticks evs
  /\ breakWarnings (snd (run (mount P) evs))
     = (if (240 <=? ticks evs)%Z then 1%nat else 0%nat)
  /\ (forall s : State,
         snd (drivingTick s)
         = if (drivingTime s + 1 =? 240)%Z then [BreakWarning] else [])
  /\ (forall s : State,
         showBreakWarning (fst (drivingTick s))
         = if (drivingTime s + 1 =? 240)%Z then true else showBreakWarning s)
  /\ ((ticks evs < 240)%Z -> shown evs = false)
  /\ (ticks evs = 239%Z -> shown (evs ++ [DrivingTick]) = true)
  /\ ((240 <= ticks evs)%Z -> (forall e, In e evs -> e <> BreakUnderstood) ->
      shown evs = true)
  /\ ((240 <= ticks evs)%Z -> shown evs = false ->
      forall later : list Event, shown (evs ++ later) = false).
Proof.
  intros shown. subst shown. cbv beta.
  destruct (run_drivingTime evs (mount P)) as [H1 H2]. simpl in H1, H2.
  destruct (run_showBreakWarning evs (mount P)) as [Hoff Hon].
  cbv zeta in Hoff, Hon.
  change (drivingTime (nav (mount P))) with 0%Z in Hoff, Hon.
  change (showBreakWarning (nav (mount P))) with false in Hoff, Hon.
  split; [exact H1 |]. split; [exact H2 |].
  split.
  { intros s. unfold drivingTick. destruct (drivingTime s + 1 =? 240)%Z; reflexivity. }
  split.
  { intros s. unfold drivingTick. destruct (drivingTime s + 1 =? 240)%Z; reflexivity. }
  split.
  { intros Hlt. apply Hoff; [reflexivity | left; lia]. }
  split.
  { intros H239. rewrite run_app, run_cons. cbn [fst run].
    rewrite step_showBreakWarning, H1, H239. reflexivity. }
  split.
  { intros Hge Hkeep. apply Hon; [exact Hkeep | right; lia]. }
  intros Hge Hdismissed later. rewrite run_app.
  apply (run_showBreakWarning later (fst (run (mount P) evs))).
  - exact Hdismissed.
  - right. rewrite H1. exact Hge.
Qed.

(** ** The heading smoother *)

(** The remainder of a division by a positive number lies strictly inside
    one period and has the sign of the dividend. *)
Lemma rem_bounds (x m : R) :
  0 < m ->
  (0 <= x -> 0 <= JS.rem x m < m) /\ (x < 0 -> - m < JS.rem x m <= 0).
Proof.
  intros Hm. unfold JS.rem, JS.trunc.
  assert (Hx : x / m * m = x) by (field; lra).
  split; intros Hsign.
  - destruct (Rle_dec 0 (x / m)) as [_ | Hneg].
    + pose proof (Zfloor_bound (x / m)) as [Hlo Hhi].
      split; nra.
    + exfalso. apply Hneg. apply Rmult_le_reg_r with m; [exact Hm |]. lra.
  - destruct (Rle_dec 0 (x / m)) as [Hpos | _].
    + exfalso.
      assert (0 <= x / m * m) by (apply Rmult_le_pos; lra). lra.
    + pose proof (Zceil_bound (x / m)) as [Hlo Hhi].
      split; nra.
Qed.

Lemma rem_first_turn (x : R) : 0 <= x < 360 -> JS.rem x 360 = x.
Proof.
  intros [Hlo Hhi]. unfold JS.rem, JS.trunc.
  destruct (Rle_dec 0 (x / 360)) as [_ | Hneg]; [| exfalso; apply Hneg; lra].
  rewrite (Zfloor_eq 0); simpl; lra.
Qed.

Lemma rem_second_turn (x : R) : 360 <= x < 720 -> JS.rem x 360 = x - 360.
Proof.
  intros [Hlo Hhi]. unfold JS.rem, JS.trunc.
  destruct (Rle_dec 0 (x / 360)) as [_ | Hneg]; [| exfalso; apply Hneg; lra].
  rewrite (Zfloor_eq 1); simpl; lra.
Qed.

(** [((x % 360) + 360) % 360] always lands in [0, 360). *)
Lemma normalize_range (x : R) : 0 <= JS.rem (JS.rem x 360 + 360) 360 < 360.
Proof.
  assert (H360 : 0 < 360) by lra.
  destruct (rem_bounds x 360 H360) as [Hpos Hneg].
  apply (rem_bounds _ 360 H360).
  destruct (Rle_or_lt 0 x) as [Hx | Hx]; [apply Hpos in Hx | apply Hneg in Hx]; lra.
Qed.

(** The smoothed heading stays in [0, 360). *)
Lemma smoothStep_range (following : bool) (h smooth : R) :
  0 <= smooth < 360 -> 0 <= smoothStep following h smooth < 360.
Proof.
  intros Hs. unfold smoothStep.
  destruct following; [| exact Hs].
  destruct (Rgt_dec _ 3); [| exact Hs].
  apply normalize_range.
Qed.

(** A raw heading within 3 degrees of the smoothed one, on either side of
    the seam, is ignored. *)
Lemma smoothStep_deadband (following : bool) (h smooth : R) :
  Rabs (h - smooth) <= 3 \/ 357 <= Rabs (h - smooth) ->
  smoothStep following h smooth = smooth.
Proof.
  intros Hnear. unfold smoothStep.
  destruct following; [| reflexivity].
  destruct (Rgt_dec (Rabs (h - smooth)) 180) as [Hbig | Hsmall].
  - destruct (Rgt_dec (360 - Rabs (h - smooth)) 3); [lra | reflexivity].
  - destruct (Rgt_dec (Rabs (h - smooth)) 3); [lra | reflexivity].
Qed.

(** Away from the seam the smoothed heading moves 0.15 of the way. *)
Example smoothStep_quarter_turn : smoothStep true 90 0 = 13.5.
Proof.
  unfold smoothStep.
  replace (Rabs (90 - 0)) with 90 by (rewrite Rabs_right; lra).
  destruct (Rgt_dec 90 180); [lra |].
  destruct (Rgt_dec 90 3); [| lra].
  destruct (Rgt_dec (90 - 0) 180); [lra |].
  destruct (Rgt_dec (0 - 90) 180); [lra |].
  rewrite (rem_first_turn (0 + (90 - 0) * 0.15)) by lra.
  rewrite rem_second_turn by lra. lra.
Qed.

(** C6 (heading wraparound): when the raw heading [h] lies ahead of the
    smoothed heading across the 0/360 seam ([smooth - h > 180], so that the
    short arc from [smooth] forward through 0 to [h] is [360 - smooth + h]),
    an arc of at most 3 degrees is inside the deadband and leaves the
    smoothed heading where it is -- this is the case of [smooth = 359],
    [h = 2] -- and a longer arc moves it forward by 0.15 of the arc, through
    0 when that passes 360, never backward, with the result in [0, 360). *)
Theorem heading_wraparound (smooth h : R) :
  0 <= smooth < 360 -> 0 <= h < 360 -> smooth - h > 180 ->
  let arc := 360 - smooth + h in
  let new := smoothStep true h smooth in
  (arc <= 3 -> new = smooth)
  /\ (arc > 3 ->
      0 <= new < 360
      /\ (smooth + 0.15 * arc < 360 -> new = smooth + 0.15 * arc)
      /\ (360 <= smooth + 0.15 * arc -> new = smooth + 0.15 * arc - 360)).
Proof.
  intros Hs Hh Hwrap arc new. subst new. unfold smoothStep.
  assert (Hdiff : Rabs (h - smooth) = smooth - h)
    by (rewrite Rabs_left; lra).
  rewrite Hdiff.
  destruct (Rgt_dec (smooth - h) 180) as [_ | Hn]; [| contradiction].
  split.
  - intros Harc. destruct (Rgt_dec (360 - (smooth - h)) 3) as [Hbig | _].
    + unfold arc in Harc. lra.
    + reflexivity.
  - intros Harc. destruct (Rgt_dec (360 - (smooth - h)) 3) as [_ | Hsmall].
    2: { exfalso. apply Hsmall. unfold arc in Harc. lra. }
    destruct (Rgt_dec (h - smooth) 180) as [Habs | _]; [lra |].
    replace (smooth + (360 - smooth + h) * 0.15) with (smooth + 0.15 * arc)
      by (unfold arc; lra).
    split; [apply normalize_range |].
    assert (Hlt : smooth + 0.15 * arc < 720) by (unfold arc; lra).
    assert (Hge : 0 <= smooth + 0.15 * arc) by (unfold arc; lra).
    split; intros Hcase.
    + rewrite (rem_first_turn (smooth + 0.15 * arc)) by lra.
      rewrite rem_second_turn by lra. lra.
    + rewrite (rem_second_turn (smooth + 0.15 * arc)) by lra.
      rewrite rem_second_turn by lra. lra.
Qed.

(** ** Geo math *)

Lemma PI_bounds : 3 < PI <= 4.
Proof.
  split; [pose proof PI2_3_2; lra | exact PI_4].
Qed.

Lemma sin_lower (a : R) : 0 <= a <= PI -> a - a ^ 3 / 6 <= sin a.
Proof.
  intros [H0 H1]. destruct (sin_bound a 0 H0 H1) as [H _].
  unfold sin_approx, sin_term in H. simpl in *. nra.
Qed.

Lemma cos_lower (a : R) : - PI / 2 <= a <= PI / 2 -> 1 - a ^ 2 / 2 <= cos a.
Proof.
  intros [H0 H1]. destruct (cos_bound a 0 H0 H1) as [H _].
  unfold cos_approx, cos_term in H. simpl in *. nra.
Qed.

Lemma sin_upper (a : R) : 0 <= a -> sin a <= a.
Proof.
  intros [Hpos | <-].
  - left. apply sin_lt_x. exact Hpos.
  - rewrite sin_0. lra.
Qed.

Lemma tan_upper (y : R) : 0 <= y <= / 2 -> tan y <= 2 * y.
Proof.
  intros [H0 H1]. pose proof PI_bounds as [HPI _].
  assert (Hc : 7 / 8 <= cos y).
  { pose proof (cos_lower y ltac:(lra)). nra. }
  pose proof (sin_upper y H0) as Hs.
  assert (Ht : tan y * cos y = sin y) by (unfold tan; field; lra).
  nra.
Qed.

Lemma atan_lower (c : R) : 0 <= c <= 1 -> c / 2 <= atan c.
Proof.
  intros [H0 H1]. pose proof PI_bounds as [HPI _].
  pose proof (tan_upper (c / 2) ltac:(lra)) as Ht.
  assert (Hy : atan (tan (c / 2)) = c / 2) by (apply atan_tan; lra).
  replace (2 * (c / 2)) with c in Ht by lra.
  destruct Ht as [Ht | Ht].
  - apply atan_increasing in Ht. lra.
  - rewrite <- Ht at 2. lra.
Qed.

Lemma atan_mono (x y : R) : x <= y -> atan x <= atan y.
Proof.
  intros [H | ->]; [left; apply atan_increasing; exact H | lra].
Qed.

(** A lower bound on the distance from a lower bound on the haversine term. *)
Lemma calcDist_lower (lat1 lon1 lat2 lon2 c : R) :
  0 <= c <= 1 ->
  c ^ 2 <= hav lat1 lon1 lat2 lon2 ->
  6371 * c <= calcDist lat1 lon1 lat2 lon2.
Proof.
  intros [H0 H1] Hc. unfold calcDist. cbv zeta.
  set (a := hav lat1 lon1 lat2 lon2) in *.
  pose proof PI_bounds as [HPI _].
  assert (Hsa : c <= sqrt a).
  { rewrite <- (sqrt_pow2 c H0). apply sqrt_le_1_alt. exact Hc. }
  assert (Hsb : sqrt (1 - a) <= 1).
  { rewrite <- sqrt_1 at 2. apply sqrt_le_1_alt. nra. }
  pose proof (sqrt_pos (1 - a)) as Hsb0.
  pose proof (atan_lower c (conj H0 H1)) as Hatan.
  unfold JS.Math_atan2.
  destruct (Rlt_dec 0 (sqrt (1 - a))) as [Hpos | Hzero].
  - assert (Hq : c <= sqrt a / sqrt (1 - a)).
    { apply Rle_trans with (sqrt a); [exact Hsa |].
      apply Rmult_le_reg_r with (sqrt (1 - a)); [exact Hpos |].
      replace (sqrt a / sqrt (1 - a) * sqrt (1 - a)) with (sqrt a)
        by (field; lra).
      nra. }
    apply atan_mono in Hq. lra.
  - destruct (Rlt_dec (sqrt (1 - a)) 0) as [Hneg | _]; [lra |].
    destruct (Rlt_dec 0 (sqrt a)) as [_ | Hsa0]; [lra |].
    destruct (Rlt_dec (sqrt a) 0) as [Hneg | _]; lra.
Qed.

(** Along a meridian the distance is the arc length of the latitude
    difference. *)
Lemma calcDist_meridian (lat1 lat2 lon : R) :
  Rabs (lat2 - lat1) < 180 ->
  calcDist lat1 lon lat2 lon = 6371 * (Rabs (lat2 - lat1) * PI / 180).
Proof.
  intros Hd. pose proof PI_bounds as [HPI HPI4].
  unfold calcDist, hav. cbv zeta.
  set (x := (lat2 - lat1) * PI / 180 / 2).
  replace ((lon - lon) * PI / 180 / 2) with 0 by lra.
  rewrite sin_0.
  replace (sin x ^ 2 + cos (lat1 * PI / 180) * cos (lat2 * PI / 180) * 0 ^ 2)
    with (sin x ^ 2) by ring.
  assert (Hx : Rabs x = Rabs (lat2 - lat1) * PI / 360).
  { unfold x.
    replace ((lat2 - lat1) * PI / 180 / 2) with ((lat2 - lat1) * (PI / 360)) by lra.
    rewrite Rabs_mult, (Rabs_right (PI / 360)) by lra. lra. }
  assert (Hxr : 0 <= Rabs x < PI / 2).
  { rewrite Hx. split; [pose proof (Rabs_pos (lat2 - lat1)); nra | nra]. }
  assert (Hcos : cos x = cos (Rabs x)).
  { unfold Rabs. destruct (Rcase_abs x); [rewrite cos_neg |]; reflexivity. }
  assert (Hsin : Rabs (sin x) = sin (Rabs x)).
  { assert (0 <= sin (Rabs x)) as Hge by (apply sin_ge_0; lra).
    revert Hge. unfold Rabs at 1 3. destruct (Rcase_abs x) as [Hneg | Hpos].
    - rewrite sin_neg. intros Hge. rewrite Rabs_left1; lra.
    - intros Hge. rewrite Rabs_right; lra. }
  assert (Hcpos : 0 < cos (Rabs x)) by (apply cos_gt_0; lra).
  assert (H1 : sqrt (sin x ^ 2) = sin (Rabs x)).
  { rewrite <- pow2_abs, sqrt_pow2 by apply Rabs_pos. exact Hsin. }
  assert (H2 : sqrt (1 - sin x ^ 2) = cos (Rabs x)).
  { replace (1 - sin x ^ 2) with (cos x ^ 2)
      by (pose proof (sin2_cos2 x) as E; unfold Rsqr in E; nra).
    rewrite Hcos, sqrt_pow2 by lra. reflexivity. }
  rewrite H1, H2. unfold JS.Math_atan2.
  destruct (Rlt_dec 0 (cos (Rabs x))) as [_ | Hn]; [| contradiction].
  change (sin (Rabs x) / cos (Rabs x)) with (tan (Rabs x)).
  rewrite atan_tan by lra. rewrite Hx. lra.
Qed.

(** ** The off-route check *)

Section OffRouteCheck.

Variables lat lon : R.

Lemma offRoute_scan_some (pts : list (R * R)) : forall m : R,
  offRoute_scan lat lon pts (Some m) = true
  <-> m > 50 /\ Forall (farFrom lat lon) pts.
Proof.
  induction pts as [| p pts IH]; intros m; simpl.
  - destruct (Rgt_dec m 50); split; intros H; auto; try discriminate.
    destruct H; contradiction.
  - destruct (Rlt_dec (calcDist lat lon (fst p) (snd p) * 1000) 50) as [Hnear | Hfar].
    + split; [discriminate |]. intros [_ H]. inversion H; subst.
      unfold farFrom in *. lra.
    + destruct (Rlt_dec (calcDist lat lon (fst p) (snd p) * 1000) m);
        rewrite IH; split; intros [H1 H2].
      * split; [lra |]. constructor; [exact H1 | exact H2].
      * inversion H2; subst. auto.
      * split; [exact H1 |]. constructor; [unfold farFrom; lra | exact H2].
      * inversion H2; subst. auto.
Qed.

Lemma offRoute_scan_none (pts : list (R * R)) :
  offRoute_scan lat lon pts None = true <-> Forall (farFrom lat lon) pts.
Proof.
  destruct pts as [| p pts]; simpl.
  - split; auto.
  - destruct (Rlt_dec (calcDist lat lon (fst p) (snd p) * 1000) 50) as [Hnear | Hfar].
    + split; [discriminate |]. intros H. inversion H; subst.
      unfold farFrom in *. lra.
    + rewrite offRoute_scan_some. split.
      * intros [H1 H2]. constructor; assumption.
      * intros H. inversion H; subst. auto.
Qed.

(** The check answers "off route" exactly when there is a route, it has a
    point, and every one of its points is more than 50 m away. *)
Lemma checkIfOffRoute_spec (r : option (list (R * R))) :
  checkIfOffRoute r lat lon = true
  <-> exists pts, r = Some pts /\ pts <> [] /\ Forall (farFrom lat lon) pts.
Proof.
  unfold checkIfOffRoute. destruct r as [[| p pts] |].
  - split; [discriminate |]. intros (l & H & Hne & _). inversion H; subst.
    contradiction.
  - rewrite offRoute_scan_none. split.
    + intros H. exists (p :: pts). repeat split; auto. discriminate.
    + intros (l & H & _ & Hfar). inversion H; subst. exact Hfar.
  - split; [discriminate |]. intros (l & H & _). discriminate.
Qed.

End OffRouteCheck.

(** When a sample raises the flag of a session that is not flagged. *)
Lemma onPosition_raises (P : Props) (s : State) (pos : GeoSample) :
  isOffRoute s = false ->
  isOffRoute (fst (onPosition P s pos)) = true
  <-> exists pts,
        route P = Some pts /\ pts <> []
        /\ Forall (farFrom (latitude pos) (longitude pos)) pts.
Proof.
  intros Hclear. rewrite onPosition_isOffRoute, Hclear. simpl.
  apply checkIfOffRoute_spec.
Qed.

(** C1 (off-route threshold): for a session that is not flagged, a position
    sample sets [isOffRoute] exactly when the route has at least one point
    and every point of the polyline is more than 50 m from the sample; for
    a route of two points, exactly when both end points are.  So a sample
    that is 51 m from the line, and with that at least 51 m from both end
    points, sets the flag; a sample that is 49 m from the line leaves it
    alone only if an end point is within 50 m.  The distance compared with
    50 m is the one to the nearest vertex, not the perpendicular distance
    to the line between the vertices. *)
Theorem off_route_threshold (P : Props) (s : State) (pos : GeoSample) :
  isOffRoute s = false ->
  let far := farFrom (latitude pos) (longitude pos) in
  let flagged := isOffRoute (fst (onPosition P s pos)) in
  (flagged = true
   <-> exists pts, route P = Some pts /\ pts <> [] /\ Forall far pts)
  /\ (forall a b, route P = Some [a; b] ->
        (flagged = true <-> far a /\ far b)
        /\ (51 <= calcDist (latitude pos) (longitude pos) (fst a) (snd a) * 1000 ->
            51 <= calcDist (latitude pos) (longitude pos) (fst b) (snd b) * 1000 ->
            flagged = true)
        /\ (flagged = false <-> ~ far a \/ ~ far b)).
Proof.
  intros Hclear far flagged.
  pose proof (onPosition_raises P s pos Hclear) as Hflag.
  fold far flagged in Hflag.
  split; [exact Hflag |].
  intros a b Hroute.
  assert (Hboth : flagged = true <-> far a /\ far b).
  { rewrite Hflag. split.
    - intros (pts & H & _ & Hfar). rewrite Hroute in H. inversion H; subst.
      inversion Hfar as [| ? ? Ha Hrest]; subst.
      inversion Hrest; subst. auto.
    - intros [Ha Hb]. exists [a; b]. repeat split; auto. discriminate. }
  split; [exact Hboth |]. split.
  - intros Ha Hb. apply Hboth. unfold far, farFrom. split; lra.
  - split.
    + intros Hnot.
      destruct (Rgt_dec (calcDist (latitude pos) (longitude pos) (fst a) (snd a)
                         * 1000) 50) as [Ha | Ha]; [| left; exact Ha].
      right. intros Hb.
      assert (flagged = true) by (apply Hboth; split; assumption).
      congruence.
    + intros Hnear. destruct flagged eqn:Hf; [| reflexivity].
      destruct (proj1 Hboth eq_refl) as [Ha Hb].
      destruct Hnear; contradiction.
Qed.

(** The latitude of [sampleBeside m] in radians. *)
Lemma metresNorth_radians (m : R) : metresNorth m * PI / 180 = m / 1000 / 6371.
Proof.
  pose proof PI_bounds. unfold metresNorth. field. lra.
Qed.

(** A reading beside the middle of [equatorRoute] is [m] metres from the
    foot of its perpendicular. *)
Lemma sampleBeside_perpendicular (m : R) :
  0 <= m <= 1000 ->
  calcDist (metresNorth m) 0.5 0 0.5 * 1000 = m.
Proof.
  intros Hm. pose proof PI_bounds as [HPI HPI4].
  assert (Hpos : 0 <= metresNorth m < 1).
  { unfold metresNorth. split.
    - apply Rmult_le_pos; [lra |]. left. apply Rinv_0_lt_compat. lra.
    - apply Rmult_lt_reg_r with PI; [lra |].
      replace (m / 1000 / 6371 * 180 / PI * PI) with (m / 1000 / 6371 * 180)
        by (field; lra).
      lra. }
  rewrite calcDist_meridian.
  - replace (0 - metresNorth m) with (- metresNorth m) by lra.
    rewrite Rabs_Ropp, Rabs_right by lra.
    replace (metresNorth m * PI / 180) with (m / 1000 / 6371)
      by (symmetry; apply metresNorth_radians).
    field.
  - replace (0 - metresNorth m) with (- metresNorth m) by lra.
    rewrite Rabs_Ropp, Rabs_right; lra.
Qed.

(** Both ends of [equatorRoute] are more than 15 km from such a reading. *)
Lemma sampleBeside_far (m lonv : R) :
  0 <= m <= 1000 -> lonv = 0 \/ lonv = 1 ->
  15 <= calcDist (metresNorth m) 0.5 0 lonv.
Proof.
  intros Hm Hv. pose proof PI_bounds as [HPI HPI4].
  apply Rle_trans with (6371 * / 400); [lra |].
  apply calcDist_lower; [lra |].
  unfold hav. cbv zeta.
  rewrite metresNorth_radians.
  replace (0 * PI / 180) with 0 by lra. rewrite cos_0.
  set (e := m / 1000 / 6371).
  assert (He : 0 <= e <= / 6371) by (unfold e; lra).
  assert (Hcos : / 2 <= cos e).
  { pose proof (cos_lower e ltac:(lra)). nra. }
  set (x := PI / 720).
  assert (Hx : / 240 <= x <= / 180) by (unfold x; lra).
  assert (Hsin : / 250 <= sin x).
  { pose proof (sin_lower x ltac:(lra)) as Hs.
    assert (x * x <= / 180 * / 180) by nra.
    assert (x ^ 3 <= / 180 * / 180 * / 180) by (simpl; nra).
    lra. }
  assert (Hsq : sin ((lonv - 0.5) * PI / 180 / 2) ^ 2 = sin x ^ 2).
  { destruct Hv as [-> | ->].
    - replace ((0 - 0.5) * PI / 180 / 2) with (- x) by (unfold x; lra).
      rewrite sin_neg. ring.
    - replace ((1 - 0.5) * PI / 180 / 2) with x by (unfold x; lra).
      reflexivity. }
  rewrite Hsq.
  assert (0 <= sin ((0 - metresNorth m) * PI / 180 / 2) ^ 2) by apply pow2_ge_0.
  assert (/ 250 * / 250 <= sin x ^ 2) by (simpl; nra).
  nra.
Qed.

(** C1, counterexample: a reading exactly 49 m perpendicular from the middle
    of the two-point route [(0, 0); (0, 1)] sets [isOffRoute] in a session
    that was not flagged, because both end points are kilometres away. *)
Lemma off_route_threshold_counterexample :
  calcDist (latitude (sampleBeside 49)) (longitude (sampleBeside 49)) 0 0.5 * 1000
  = 49
  /\ isOffRoute (initialState equatorProps) = false
  /\ isOffRoute
       (fst (onPosition equatorProps (initialState equatorProps) (sampleBeside 49)))
     = true.
Proof.
  split; [apply sampleBeside_perpendicular; lra |].
  split; [reflexivity |].
  apply (onPosition_raises equatorProps (initialState equatorProps)
           (sampleBeside 49) eq_refl).
  exists equatorRoute. split; [reflexivity |]. split; [discriminate |].
  repeat constructor; unfold farFrom; simpl.
  - pose proof (sampleBeside_far 49 0 ltac:(lra) (or_introl eq_refl)). lra.
  - pose proof (sampleBeside_far 49 1 ltac:(lra) (or_intror eq_refl)). lra.
Qed.

(** The same route flags a reading 51 m beside its middle as well. *)
Lemma off_route_51m_flagged :
  isOffRoute
    (fst (onPosition equatorProps (initialState equatorProps) (sampleBeside 51)))
  = true.
Proof.
  apply (onPosition_raises equatorProps (initialState equatorProps)
           (sampleBeside 51) eq_refl).
  exists equatorRoute. split; [reflexivity |]. split; [discriminate |].
  repeat constructor; unfold farFrom; simpl.
  - pose proof (sampleBeside_far 51 0 ltac:(lra) (or_introl eq_refl)). lra.
  - pose proof (sampleBeside_far 51 1 ltac:(lra) (or_intror eq_refl)). lra.
Qed.

(** ** Progress and arrival times *)

Lemma truthy_nonzero (x : R) : x <> 0 -> JS.truthy (Some x) = true.
Proof.
  intros Hx. unfold JS.truthy. destruct (Req_dec_T x 0); [contradiction | reflexivity].
Qed.

(** What the callback stores for the whole trip. *)
Lemma onPosition_trip (P : Props) (s : State) (pos : GeoSample)
  (e : Coords) (total : R) :
  endCoords P = Some e -> totalDistance P = Some total -> total <> 0 ->
  let r := calcDist (latitude pos) (longitude pos) (c_lat e) (c_lon e) in
  let s' := fst (onPosition P s pos) in
  remainingDistance s' = Rmax 0 r
  /\ progressPercent s' = Rmin 100 ((total - r) / total * 100)
  /\ remainingTime s' = IZR (JS.Math_round (r / avgSpeed s * 60)).
Proof.
  intros He Htotal Hnz. unfold onPosition.
  destruct (trackWaypoint P s pos (recordReading pos s)) as [s2 toasts].
  simpl. unfold trackOffRoute, trackTrip. rewrite He, Htotal.
  rewrite (truthy_nonzero total Hnz).
  destruct (_ && _); simpl; auto.
Qed.

(** What the callback stores for the next waypoint. *)
Lemma onPosition_waypoint (P : Props) (s : State) (pos : GeoSample)
  (d : Destination) (dlat dlon : R) :
  currentDestination P s = Some d ->
  d_lat d = Some dlat -> d_lon d = Some dlon -> dlat <> 0 -> dlon <> 0 ->
  let dist := calcDist (latitude pos) (longitude pos) dlat dlon in
  let s' := fst (onPosition P s pos) in
  distanceToNextWaypoint s' = Rmax 0 dist
  /\ timeToNextWaypoint s' = IZR (JS.Math_round (dist / avgSpeed s * 60)).
Proof.
  intros Hd Hlat Hlon Hnz1 Hnz2. unfold onPosition.
  assert (Hw : let s2 := fst (trackWaypoint P s pos (recordReading pos s)) in
               distanceToNextWaypoint s2
               = Rmax 0 (calcDist (latitude pos) (longitude pos) dlat dlon)
               /\ timeToNextWaypoint s2
                  = IZR (JS.Math_round
                           (calcDist (latitude pos) (longitude pos) dlat dlon
                            / avgSpeed s * 60))).
  { unfold trackWaypoint. rewrite Hd, Hlat, Hlon.
    rewrite (truthy_nonzero dlat Hnz1), (truthy_nonzero dlon Hnz2). simpl.
    destruct (Rlt_dec _ 0.2); [| simpl; auto].
    destruct (_ <? _)%Z; simpl; auto. }
  destruct (trackWaypoint P s pos (recordReading pos s)) as [s2 toasts].
  simpl in *. unfold trackOffRoute, trackTrip.
  break_match; simpl; exact Hw.
Qed.

(** The speed the callback stores: the reading's, in km/h, rounded. *)
Lemma onPosition_speed (P : Props) (s : State) (pos : GeoSample) :
  speed (fst (onPosition P s pos))
  = match g_speed pos with
    | Some v => IZR (JS.Math_round (v * 3.6))
    | None => speed s
    end.
Proof.
  unfold onPosition.
  assert (Hr : speed (recordReading pos s)
               = match g_speed pos with
                 | Some v => IZR (JS.Math_round (v * 3.6))
                 | None => speed s
                 end)
    by (unfold recordReading; break_match; reflexivity).
  assert (Hw : speed (fst (trackWaypoint P s pos (recordReading pos s)))
               = speed (recordReading pos s))
    by (unfold trackWaypoint; break_match; reflexivity).
  destruct (trackWaypoint P s pos (recordReading pos s)) as [s2 toasts].
  simpl in *. rewrite <- Hr, <- Hw.
  unfold trackOffRoute, trackTrip. break_match; reflexivity.
Qed.

(** The progress figure never exceeds 100, and a remaining distance above
    the total distance drives it below 0: only the upper clamp is applied. *)
Lemma progress_overshoot (P : Props) (s : State) (pos : GeoSample)
  (e : Coords) (total : R) :
  endCoords P = Some e -> totalDistance P = Some total -> 0 < total ->
  progressPercent (fst (onPosition P s pos)) <= 100
  /\ (total < calcDist (latitude pos) (longitude pos) (c_lat e) (c_lon e) ->
      progressPercent (fst (onPosition P s pos)) < 0).
Proof.
  intros He Htotal Hpos.
  destruct (onPosition_trip P s pos e total He Htotal ltac:(lra)) as (_ & -> & _).
  split; [apply Rmin_l |].
  intros Hover.
  set (r := calcDist (latitude pos) (longitude pos) (c_lat e) (c_lon e)) in *.
  apply Rle_lt_trans with ((total - r) / total * 100); [apply Rmin_r |].
  assert (Hq : (total - r) / total < 0).
  { apply Rmult_lt_reg_r with total; [exact Hpos |].
    replace ((total - r) / total * total) with (total - r) by (field; lra). lra. }
  lra.
Qed.

(** C3, at the failing input: on the trip from (48, 10) to (50, 10) with a
    total distance of 222.4 km, a reading at (47, 10) -- one degree behind
    the start, with more than 318 km to go -- leaves [progressPercent]
    below 0. *)
Theorem progress_negative_behind_start :
  progressPercent
    (fst (onPosition meridianProps (initialState meridianProps)
            (meridianSample 47 20))) < 0.
Proof.
  pose proof PI_bounds as [HPI _].
  apply (progress_overshoot meridianProps _ _ (mkCoords 50 10) 222.4);
    try reflexivity; [lra |].
  simpl. rewrite calcDist_meridian.
  - replace (50 - 47) with 3 by lra. rewrite Rabs_right by lra. lra.
  - replace (50 - 47) with 3 by lra. rewrite Rabs_right; lra.
Qed.

Lemma Math_round_eq (x : R) (z : Z) :
  IZR z - / 2 <= x < IZR z + / 2 -> JS.Math_round x = z.
Proof.
  intros [Hlo Hhi]. unfold JS.Math_round. apply Zfloor_eq. lra.
Qed.

Lemma Math_round_lt (x y : R) :
  x + 1 <= y -> (JS.Math_round x < JS.Math_round y)%Z.
Proof.
  intros Hxy. unfold JS.Math_round.
  assert (H : (Zfloor (x + / 2) + 1 <= Zfloor (y + / 2))%Z).
  { rewrite <- Zfloor_addz. apply Zfloor_le. simpl. lra. }
  lia.
Qed.

Lemma allDestinations_meridian :
  allDestinations meridianProps
  = [ {| d_name := "Rasthof"; d_lat := Some 49; d_lon := Some 10;
         d_isRestStop := true |};
      {| d_name := "Destination"; d_lat := Some 50; d_lon := Some 10;
         d_isRestStop := false |} ].
Proof.
  assert (H49 : JS.truthy (Some 49) = true) by (apply truthy_nonzero; lra).
  assert (H50 : JS.truthy (Some 50) = true) by (apply truthy_nonzero; lra).
  assert (H10 : JS.truthy (Some 10) = true) by (apply truthy_nonzero; lra).
  unfold allDestinations, meridianProps, JS.or_else.
  cbn [waypoints endCoords language map option_map wp_coords wp_lat wp_lon
       wp_text wp_name wp_isRestStop c_lat c_lon app filter d_lat d_lon].
  rewrite H49, H10.
  cbn [waypoints endCoords language map option_map wp_coords wp_lat wp_lon
       wp_text wp_name wp_isRestStop c_lat c_lon app filter d_lat d_lon].
  rewrite H49, H50, H10. reflexivity.
Qed.

Lemma meridian_distance (lat1 lat2 : R) :
  lat1 <= lat2 < lat1 + 180 ->
  calcDist lat1 10 lat2 10 = 6371 * ((lat2 - lat1) * PI / 180).
Proof.
  intros H. rewrite calcDist_meridian; rewrite Rabs_right; lra.
Qed.

(** C8, at the failing input: the session receives a reading at 22.2 m/s
    (80 km/h) and then one at 25/18 m/s (5 km/h).  The first reading's
    times are computed with 70 km/h, the state still holding speed 0; the
    second reading's times -- to the next stop and to the destination --
    are computed with the 80 km/h that the state holds from the first, and
    differ from the times that 70 km/h gives. *)
Theorem eta_uses_stored_speed :
  let P := meridianProps in
  let sA := fst (onPosition P (initialState P) (meridianSample 48 22.2)) in
  let sB := fst (onPosition P sA (meridianSample 48.1 (25 / 18))) in
  let toStop := calcDist 48.1 10 49 10 in
  let toEnd := calcDist 48.1 10 50 10 in
  timeToNextWaypoint sA = IZR (JS.Math_round (calcDist 48 10 49 10 / 70 * 60))
  /\ speed sA = 80
  /\ speed sB = 5
  /\ timeToNextWaypoint sB = IZR (JS.Math_round (toStop / 80 * 60))
  /\ remainingTime sB = IZR (JS.Math_round (toEnd / 80 * 60))
  /\ timeToNextWaypoint sB <> IZR (JS.Math_round (toStop / 70 * 60))
  /\ remainingTime sB <> IZR (JS.Math_round (toEnd / 70 * 60)).
Proof.
  intros P sA sB toStop toEnd.
  pose proof PI_bounds as [HPI HPI4].
  set (stop := {| d_name := "Rasthof"; d_lat := Some 49; d_lon := Some 10;
                  d_isRestStop := true |}).
  assert (Hd0 : currentDestination P (initialState P) = Some stop).
  { unfold currentDestination, P. rewrite allDestinations_meridian. reflexivity. }
  assert (Havg0 : avgSpeed (initialState P) = 70).
  { unfold avgSpeed. simpl. destruct (Rgt_dec 0 10); [lra | reflexivity]. }
  assert (HspA : speed sA = 80).
  { unfold sA. rewrite onPosition_speed. simpl.
    rewrite (Math_round_eq _ 80); [reflexivity | lra]. }
  assert (HidxA : currentWaypointIndex sA = 0%nat).
  { destruct (onPosition_index P (initialState P) (meridianSample 48 22.2))
      as [H | (_ & _ & d & dlat & dlon & Hd & Hlat & Hlon & Hnear)].
    - exact H.
    - exfalso. rewrite Hd0 in Hd. inversion Hd; subst d.
      simpl in Hlat, Hlon. inversion Hlat; inversion Hlon; subst.
      simpl in Hnear. rewrite meridian_distance in Hnear; lra. }
  assert (HdA : currentDestination P sA = Some stop).
  { unfold currentDestination. rewrite HidxA. unfold P.
    rewrite allDestinations_meridian. reflexivity. }
  assert (HavgA : avgSpeed sA = 80).
  { unfold avgSpeed. rewrite HspA. destruct (Rgt_dec 80 10); [reflexivity | lra]. }
  destruct (onPosition_waypoint P (initialState P) (meridianSample 48 22.2)
              stop 49 10 Hd0 eq_refl eq_refl ltac:(lra) ltac:(lra)) as [_ HtA].
  destruct (onPosition_waypoint P sA (meridianSample 48.1 (25 / 18))
              stop 49 10 HdA eq_refl eq_refl ltac:(lra) ltac:(lra)) as [_ HtB].
  destruct (onPosition_trip P sA (meridianSample 48.1 (25 / 18))
              (mkCoords 50 10) 222.4 eq_refl eq_refl ltac:(lra)) as (_ & _ & HrB).
  rewrite Havg0 in HtA. rewrite HavgA in HtB, HrB. simpl in HtA, HtB, HrB.
  fold sA in HtA. fold sB in HtB, HrB. fold toStop in HtB. fold toEnd in HrB.
  assert (HtoStop : toStop = 6371 * ((49 - 48.1) * PI / 180))
    by (apply meridian_distance; lra).
  assert (HtoEnd : toEnd = 6371 * ((50 - 48.1) * PI / 180))
    by (apply meridian_distance; lra).
  repeat split.
  - exact HtA.
  - exact HspA.
  - unfold sB. rewrite onPosition_speed. simpl.
    rewrite (Math_round_eq _ 5); [reflexivity | lra].
  - exact HtB.
  - exact HrB.
  - rewrite HtB. intros Heq. apply eq_IZR in Heq.
    pose proof (Math_round_lt (toStop / 80 * 60) (toStop / 70 * 60) ltac:(lra)).
    lia.
  - rewrite HrB. intros Heq. apply eq_IZR in Heq.
    pose proof (Math_round_lt (toEnd / 80 * 60) (toEnd / 70 * 60) ltac:(lra)).
    lia.
Qed.

(** ** A recalculation that fails *)

(** A rejected request changes neither the props nor the session. *)
Lemma step_rejected (sys : System) (k : nat) :
  props (fst (step sys (RoutingSettled k Rejected))) = props sys
  /\ nav (fst (step sys (RoutingSettled k Rejected))) = nav sys
  /\ requests (snd (step sys (RoutingSettled k Rejected))) = 0%nat.
Proof.
  simpl. destruct (nth_error (inflight sys) k); simpl; auto.
Qed.

(** The session after a position sample is what the callback returns. *)
Lemma step_position (sys : System) (pos : GeoSample) :
  props (fst (step sys (PositionUpdate pos))) = props sys
  /\ nav (fst (step sys (PositionUpdate pos)))
     = fst (onPosition (props sys) (nav sys) pos)
  /\ inflight (fst (step sys (PositionUpdate pos))) = inflight sys.
Proof.
  cbn [step]. cbv zeta.
  destruct (onPosition (props sys) (nav sys) pos); auto.
Qed.

(** Position samples alone change neither the props nor the requests in
    flight, and flag the session exactly when one of them is off the
    route. *)
Lemma run_samples (samples : list GeoSample) : forall sys : System,
  let sys' := fst (run sys (map PositionUpdate samples)) in
  props sys' = props sys
  /\ inflight sys' = inflight sys
  /\ isOffRoute (nav sys')
     = isOffRoute (nav sys)
       || existsb (fun pos => checkIfOffRoute (route (props sys))
                                (latitude pos) (longitude pos)) samples.
Proof.
  induction samples as [| pos samples IH]; intros sys; cbv zeta.
  - cbn [map run fst existsb]. rewrite orb_false_r. auto.
  - cbn [map existsb]. rewrite run_cons. cbn [fst].
    destruct (step_position sys pos) as (Hp & Hn & Hi).
    destruct (IH (fst (step sys (PositionUpdate pos)))) as (IHp & IHi & IHf).
    rewrite IHp, IHi, IHf, Hp, Hi, Hn, onPosition_isOffRoute, orb_assoc. auto.
Qed.

(** C2 (recalculation failure): an accepted trigger clears [isOffRoute] and
    the prompt at once, before the routing service has answered, and
    records the time.  When the request then fails -- at once or after any
    further events -- the planner's callback catches the failure: the
    props (route included) and the whole session state stay as they were
    just before the failure, no new request is sent, and the next position
    sample is processed as if the failure had not happened.  The session
    therefore does not stay flagged because of the failure: with only
    position samples between the trigger and the failure, [isOffRoute] is
    true after the failure exactly when one of those samples was more than
    50 m from every point of the unchanged route (false when there was no
    sample in between), and a later sample sets it under the same test. *)
Theorem recalculation_failure (sys : System) (now : Z) (p : Coords) :
  snd (handleRecalculate (props sys) (nav sys) now) = Some p ->
  let sys1 := fst (step sys (RecalculateClicked now)) in
  let off := fun pos : GeoSample =>
               checkIfOffRoute (route (props sys)) (latitude pos) (longitude pos) in
  isOffRoute (nav sys1) = false
  /\ showRecalculatePrompt (nav sys1) = false
  /\ lastRecalculateTime (nav sys1) = now
  /\ inflight sys1 = inflight sys ++ [p]
  /\ (forall (evs : list Event) (k : nat),
        let before := fst (run sys1 evs) in
        let after := fst (step before (RoutingSettled k Rejected)) in
        props after = props before /\ nav after = nav before
        /\ requests (snd (step before (RoutingSettled k Rejected))) = 0%nat
        /\ forall pos : GeoSample,
             nav (fst (step after (PositionUpdate pos)))
             = nav (fst (step before (PositionUpdate pos))))
  /\ (forall (samples : list GeoSample) (k : nat),
        let before := fst (run sys1 (map PositionUpdate samples)) in
        let after := fst (step before (RoutingSettled k Rejected)) in
        props after = props sys
        /\ isOffRoute (nav after) = existsb off samples
        /\ forall pos : GeoSample,
             isOffRoute (nav (fst (step after (PositionUpdate pos))))
             = existsb off samples || off pos).
Proof.
  intros Hacc sys1 off.
  destruct (handleRecalculate (props sys) (nav sys) now) as [s' q] eqn:H.
  simpl in Hacc. subst q.
  pose proof (handleRecalculate_accepted _ _ _ _ _ H) as (_ & _ & _ & ->).
  assert (Hsys1 : sys1 = mkSystem (props sys)
                           (setShowRecalculatePrompt false
                              (setIsOffRoute false
                                 (setLastRecalculateTime now (nav sys))))
                           (inflight sys ++ [p])).
  { unfold sys1. simpl. rewrite H. reflexivity. }
  clearbody sys1.
  split; [rewrite Hsys1; reflexivity |].
  split; [rewrite Hsys1; reflexivity |].
  split; [rewrite Hsys1; reflexivity |].
  split; [rewrite Hsys1; reflexivity |].
  split.
  - intros evs k before after.
    destruct (step_rejected before k) as (Hp & Hn & Hr). fold after in Hp, Hn.
    split; [exact Hp |]. split; [exact Hn |]. split; [exact Hr |].
    intros pos.
    destruct (step_position after pos) as (_ & -> & _).
    destruct (step_position before pos) as (_ & -> & _).
    rewrite Hp, Hn. reflexivity.
  - intros samples k before after.
    destruct (step_rejected before k) as (Hp & Hn & _). fold after in Hp, Hn.
    destruct (run_samples samples sys1) as (Hbp & _ & Hbf). fold before in Hbp, Hbf.
    assert (Hprops : props after = props sys)
      by (rewrite Hp, Hbp, Hsys1; reflexivity).
    assert (Hflag : isOffRoute (nav after) = existsb off samples).
    { rewrite Hn, Hbf, Hsys1. reflexivity. }
    split; [exact Hprops |]. split; [exact Hflag |].
    intros pos.
    destruct (step_position after pos) as (_ & -> & _).
    rewrite onPosition_isOffRoute, Hflag, Hprops. reflexivity.
Qed.

(** C2, counterexample: the flagged session accepts a trigger, the request
    is sent and then fails; [isOffRoute] is false afterwards. *)
Lemma recalculation_failure_counterexample :
  isOffRoute (nav flaggedSystem) = true
  /\ requests
       (snd (run flaggedSystem
               [RecalculateClicked 1700000000000; RoutingSettled 0 Rejected]))
     = 1%nat
  /\ isOffRoute
       (nav (fst (run flaggedSystem
                    [RecalculateClicked 1700000000000; RoutingSettled 0 Rejected])))
     = false.
Proof.
  split; [reflexivity |]. split; reflexivity.
Qed.

(** C6, counterexample: with the smoothed heading at 359 and a raw heading
    of 2 the update leaves the smoothed heading at 359. *)
Lemma heading_wraparound_counterexample : smoothStep true 2 359 = 359.
Proof.
  unfold smoothStep.
  replace (Rabs (2 - 359)) with 357 by (rewrite Rabs_left; lra).
  destruct (Rgt_dec 357 180) as [_ | H]; [| lra].
  destruct (Rgt_dec (360 - 357) 3) as [H | _]; [lra | reflexivity].
Qed.

(** ** The theorems at concrete sessions *)

(** C1 at the equator route: the session is not flagged, and the reading
    51 m beside the route sets the flag exactly when both end points are
    more than 50 m away. *)
Lemma off_route_threshold_witness :
  isOffRoute (initialState equatorProps) = false
  /\ (isOffRoute
        (fst (onPosition equatorProps (initialState equatorProps) (sampleBeside 51)))
      = true
      <-> calcDist (metresNorth 51) 0.5 0 0 * 1000 > 50
          /\ calcDist (metresNorth 51) 0.5 0 1 * 1000 > 50).
Proof.
  split; [reflexivity |].
  exact (proj1 (proj2 (off_route_threshold equatorProps (initialState equatorProps)
                         (sampleBeside 51) eq_refl) (0, 0) (0, 1) eq_refl)).
Defined.

(** C2 at the flagged session: the trigger is accepted and clears the flag;
    with one sample before the request fails, the flag after the failure
    is that sample's off-route test. *)
Lemma recalculation_failure_witness :
  snd (handleRecalculate (props flaggedSystem) (nav flaggedSystem) 1700000000000)
  = Some (mkCoords 48 10)
  /\ isOffRoute (nav (fst (step flaggedSystem (RecalculateClicked 1700000000000))))
     = false
  /\ isOffRoute
       (nav (fst (step
                    (fst (run (fst (step flaggedSystem
                                      (RecalculateClicked 1700000000000)))
                            (map PositionUpdate [meridianSample 60 20])))
                    (RoutingSettled 0 Rejected))))
     = existsb (fun pos => checkIfOffRoute (route (props flaggedSystem))
                             (latitude pos) (longitude pos))
         [meridianSample 60 20].
Proof.
  split; [reflexivity |].
  pose proof (recalculation_failure flaggedSystem 1700000000000
                (mkCoords 48 10) eq_refl) as (H1 & _ & _ & _ & _ & H6).
  split; [exact H1 |].
  exact (proj1 (proj2 (H6 [meridianSample 60 20] 0%nat))).
Defined.

(** C4 at the flagged session: a reading back on the route leaves the flag. *)
Lemma off_route_latching_witness :
  isOffRoute (nav flaggedSystem) = true
  /\ isOffRoute
       (nav (fst (run flaggedSystem
                    (map PositionUpdate [meridianSample 48 20; meridianSample 48.1 20]))))
     = true.
Proof.
  split; [reflexivity |].
  exact (proj1 (off_route_latching flaggedSystem eq_refl)
           [meridianSample 48 20; meridianSample 48.1 20]).
Defined.

(** C5 at the flagged session: two triggers 20 s apart with a reading in
    between. *)
Lemma cooldown_enforcement_witness :
  closeTogether
    (triggerTimes [RecalculateClicked 1700000000000;
                   PositionUpdate (meridianSample 48 20);
                   RecalculateClicked 1700000020000])
  /\ (requests
        (snd (run flaggedSystem
                [RecalculateClicked 1700000000000;
                 PositionUpdate (meridianSample 48 20);
                 RecalculateClicked 1700000020000])) <= 1)%nat.
Proof.
  assert (Hclose : closeTogether
                     (triggerTimes [RecalculateClicked 1700000000000;
                                    PositionUpdate (meridianSample 48 20);
                                    RecalculateClicked 1700000020000])).
  { intros t t' Ht Ht'. simpl in Ht, Ht'.
    destruct Ht as [<- | [<- | []]]; destruct Ht' as [<- | [<- | []]]; lia. }
  split; [exact Hclose |].
  exact (proj1 (cooldown_enforcement _ flaggedSystem Hclose)).
Defined.

(** C6 at [smooth = 359], [h = 30]: the update passes through 0. *)
Lemma heading_wraparound_witness :
  (0 <= 359 < 360 /\ 0 <= 30 < 360 /\ 359 - 30 > 180)
  /\ smoothStep true 30 359 = 359 + 0.15 * (360 - 359 + 30) - 360.
Proof.
  assert (H1 : 0 <= 359 < 360) by lra.
  assert (H2 : 0 <= 30 < 360) by lra.
  assert (H3 : 359 - 30 > 180) by lra.
  split; [auto |].
  apply (proj2 (heading_wraparound 359 30 H1 H2 H3)); lra.
Defined.

(** C7 at the mounted meridian trip. *)
Lemma waypoint_index_invariant_witness :
  (currentWaypointIndex (nav (mount meridianProps))
   < List.length (allDestinations (props (mount meridianProps))))%nat
  /\ (currentWaypointIndex
        (nav (fst (run (mount meridianProps) [PositionUpdate (meridianSample 48 20)])))
      <= currentWaypointIndex
           (nav (fst (run (mount meridianProps)
                        ([PositionUpdate (meridianSample 48 20)]
                         ++ [PositionUpdate (meridianSample 49 20)])))))%nat.
Proof.
  assert (Hvalid : (currentWaypointIndex (nav (mount meridianProps))
                    < List.length (allDestinations (props (mount meridianProps))))%nat).
  { change (props (mount meridianProps)) with meridianProps.
    rewrite allDestinations_meridian. simpl. lia. }
  split; [exact Hvalid |].
  exact (proj1 (waypoint_index_invariant (mount meridianProps)
                  [PositionUpdate (meridianSample 48 20)]
                  [PositionUpdate (meridianSample 49 20)] Hvalid)).
Defined.

(** C9 at the meridian trip: the warning is shown by the 240th tick, with a
    position sample on the way. *)
Lemma break_warning_one_shot_witness :
  ticks (repeat DrivingTick 120 ++ PositionUpdate (meridianSample 49 20)
         :: repeat DrivingTick 119) = 239%Z
  /\ showBreakWarning
       (nav (fst (run (mount meridianProps)
                    ((repeat DrivingTick 120 ++ PositionUpdate (meridianSample 49 20)
                      :: repeat DrivingTick 119) ++ [DrivingTick]))))
     = true.
Proof.
  assert (H : ticks (repeat DrivingTick 120 ++ PositionUpdate (meridianSample 49 20)
                     :: repeat DrivingTick 119) = 239%Z) by reflexivity.
  split; [exact H |].
  exact (proj1 (proj2 (proj2 (proj2 (proj2 (proj2
           (break_warning_one_shot meridianProps
              (repeat DrivingTick 120 ++ PositionUpdate (meridianSample 49 20)
               :: repeat DrivingTick 119))))))) H).
Defined.

(** C10 at the mounted meridian trip, exactly 30 s after time 0. *)
Lemma cooldown_rejection_noop_witness :
  (30000 - lastRecalculateTime (nav (mount meridianProps)) <= 30000)%Z
  /\ step (mount meridianProps) (RecalculateClicked 30000)
     = (mount meridianProps, []).
Proof.
  assert (H : (30000 - lastRecalculateTime (nav (mount meridianProps)) <= 30000)%Z)
    by (simpl; lia).
  split; [exact H |].
  exact (cooldown_rejection_noop (mount meridianProps) 30000 H).
Defined.

(** * Further properties of the navigation engine *)

(** ** Great-circle distance *)

Lemma hav_sym (lat1 lon1 lat2 lon2 : R) :
  hav lat1 lon1 lat2 lon2 = hav lat2 lon2 lat1 lon1.
Proof.
  unfold hav. cbv zeta.
  replace ((lat1 - lat2) * PI / 180 / 2) with (- ((lat2 - lat1) * PI / 180 / 2))
    by lra.
  replace ((lon1 - lon2) * PI / 180 / 2) with (- ((lon2 - lon1) * PI / 180 / 2))
    by lra.
  rewrite !sin_neg. ring.
Qed.

(** [Math.atan2] of two numbers that are not negative lies in the first
    quadrant. *)
Lemma Math_atan2_quadrant (y x : R) :
  0 <= y -> 0 <= x -> 0 <= JS.Math_atan2 y x <= PI / 2.
Proof.
  intros Hy Hx. pose proof PI_bounds as [HPI _]. unfold JS.Math_atan2.
  destruct (Rlt_dec 0 x) as [Hpos | Hzero].
  - assert (Hq : 0 <= y / x).
    { apply Rmult_le_pos; [exact Hy |]. left. apply Rinv_0_lt_compat. exact Hpos. }
    pose proof (atan_mono 0 (y / x) Hq) as Hm. rewrite atan_0 in Hm.
    pose proof (atan_bound (y / x)). lra.
  - destruct (Rlt_dec x 0); [lra |].
    destruct (Rlt_dec 0 y); [lra |].
    destruct (Rlt_dec y 0); lra.
Qed.

(** X1: [calcDist] is symmetric in its two points, is never negative, is at
    most half the circumference of the sphere of radius 6371 km, and is 0
    between a point and itself. *)
Theorem calcDist_metric (lat1 lon1 lat2 lon2 : R) :
  calcDist lat1 lon1 lat2 lon2 = calcDist lat2 lon2 lat1 lon1
  /\ 0 <= calcDist lat1 lon1 lat2 lon2 <= 6371 * PI
  /\ calcDist lat1 lon1 lat1 lon1 = 0.
Proof.
  split; [| split].
  - unfold calcDist. cbv zeta. rewrite (hav_sym lat1 lon1 lat2 lon2). reflexivity.
  - unfold calcDist. cbv zeta.
    pose proof (Math_atan2_quadrant
                  (sqrt (hav lat1 lon1 lat2 lon2))
                  (sqrt (1 - hav lat1 lon1 lat2 lon2))
                  (sqrt_pos _) (sqrt_pos _)).
    lra.
  - rewrite calcDist_meridian.
    + replace (lat1 - lat1) with 0 by lra. rewrite Rabs_R0. lra.
    + replace (lat1 - lat1) with 0 by lra. rewrite Rabs_R0. lra.
Qed.

(** ** The smoothing effect run to rest *)









(** ** Invariants of the running system *)

Lemma run_invariant (Inv : System -> Prop) :
  (forall sys e, Inv sys -> Inv (fst (step sys e))) ->
  forall evs sys, Inv sys -> Inv (fst (run sys evs)).
Proof.
  intros Hstep. induction evs as [| e evs IH]; intros sys Hinv.
  - exact Hinv.
  - rewrite run_cons. simpl fst. apply IH. apply Hstep. exact Hinv.
Qed.

(** The cells that [recordReading] does not write. *)
Lemma recordReading_frame (pos : GeoSample) (s : State) :
  let s' := recordReading pos s in
  smoothHeading s' = smoothHeading s
  /\ isFollowing s' = isFollowing s
  /\ showRecalculatePrompt s' = showRecalculatePrompt s
  /\ remainingDistance s' = remainingDistance s
  /\ remainingTime s' = remainingTime s
  /\ distanceToNextWaypoint s' = distanceToNextWaypoint s
  /\ timeToNextWaypoint s' = timeToNextWaypoint s.
Proof.
  unfold recordReading. break_match; simpl; auto 10.
Qed.

Lemma trackWaypoint_frame_view (P : Props) (c : State) (pos : GeoSample) (s : State) :
  let s' := fst (trackWaypoint P c pos s) in
  smoothHeading s' = smoothHeading s
  /\ isFollowing s' = isFollowing s
  /\ showRecalculatePrompt s' = showRecalculatePrompt s
  /\ remainingDistance s' = remainingDistance s
  /\ remainingTime s' = remainingTime s.
Proof.
  unfold trackWaypoint. break_match; simpl; auto 10.
Qed.

Lemma trackTrip_frame (P : Props) (c : State) (pos : GeoSample) (s : State) :
  let s' := trackTrip P c pos s in
  smoothHeading s' = smoothHeading s
  /\ isFollowing s' = isFollowing s
  /\ showRecalculatePrompt s' = showRecalculatePrompt s
  /\ distanceToNextWaypoint s' = distanceToNextWaypoint s
  /\ timeToNextWaypoint s' = timeToNextWaypoint s
  /\ isOffRoute s' = isOffRoute s.
Proof.
  unfold trackTrip. break_match; simpl; auto 10.
Qed.

Lemma trackOffRoute_frame (P : Props) (c : State) (pos : GeoSample) (s : State) :
  let s' := trackOffRoute P c pos s in
  smoothHeading s' = smoothHeading s
  /\ isFollowing s' = isFollowing s
  /\ remainingDistance s' = remainingDistance s
  /\ remainingTime s' = remainingTime s
  /\ distanceToNextWaypoint s' = distanceToNextWaypoint s
  /\ timeToNextWaypoint s' = timeToNextWaypoint s.
Proof.
  unfold trackOffRoute. break_match; simpl; auto 10.
Qed.

Lemma onPosition_smoothHeading (P : Props) (s : State) (pos : GeoSample) :
  smoothHeading (fst (onPosition P s pos)) = smoothHeading s.
Proof.
  unfold onPosition.
  pose proof (trackWaypoint_frame_view P s pos (recordReading pos s)) as (Hw & _).
  destruct (trackWaypoint P s pos (recordReading pos s)) as [s2 toasts].
  simpl in *.
  destruct (trackOffRoute_frame P s pos (trackTrip P s pos s2)) as (-> & _).
  destruct (trackTrip_frame P s pos s2) as (-> & _).
  rewrite Hw. apply recordReading_frame.
Qed.

(** The smoothed heading after one event. *)
Lemma step_smoothHeading (sys : System) (e : Event) :
  smoothHeading (nav (fst (step sys e))) = smoothHeading (nav sys)
  \/ (e = HeadingEffect
      /\ smoothHeading (nav (fst (step sys e)))
         = smoothStep (isFollowing (nav sys)) (heading (nav sys))
             (smoothHeading (nav sys))).
Proof.
  destruct e; simpl; auto.
  - left. pose proof (onPosition_smoothHeading (props sys) (nav sys) pos) as H.
    destruct (onPosition (props sys) (nav sys) pos). exact H.
  - left. unfold drivingTick.
    destruct (drivingTime (nav sys) + 1 =? 240)%Z; reflexivity.
  - destruct (currentPosition (nav sys)); simpl; auto.
  - left. destruct (handleRecalculate (props sys) (nav sys) now) as [s' [p |]] eqn:H.
    + apply handleRecalculate_accepted in H as (_ & _ & _ & ->). reflexivity.
    + apply handleRecalculate_dropped in H. subst. reflexivity.
  - left. destruct (nth_error (inflight sys) k); [| reflexivity].
    destruct (settleRecalculate (props sys) c outcome). reflexivity.
Qed.

(** X4: from mounting on, whatever events arrive and whatever raw headings
    the device reports, the smoothed heading that rotates the map stays in
    [0, 360). *)
Theorem smoothHeading_in_range (P : Props) (evs : list Event) :
  0 <= smoothHeading (nav (fst (run (mount P) evs))) < 360.
Proof.
  apply (run_invariant (fun sys => 0 <= smoothHeading (nav sys) < 360)).
  - intros sys e Hinv.
    destruct (step_smoothHeading sys e) as [-> | [_ ->]]; [exact Hinv |].
    apply smoothStep_range. exact Hinv.
  - simpl. lra.
Qed.

(** ** Displayed figures *)

Lemma calcDist_nonneg (lat1 lon1 lat2 lon2 : R) : 0 <= calcDist lat1 lon1 lat2 lon2.
Proof.
  unfold calcDist. cbv zeta.
  pose proof (Math_atan2_quadrant
                (sqrt (hav lat1 lon1 lat2 lon2))
                (sqrt (1 - hav lat1 lon1 lat2 lon2))
                (sqrt_pos _) (sqrt_pos _)).
  lra.
Qed.

(** The callback never divides by a speed of 10 km/h or less. *)
Lemma avgSpeed_floor (c : State) : 10 < avgSpeed c.
Proof.
  unfold avgSpeed. destruct (Rgt_dec (speed c) 10); lra.
Qed.

Lemma Math_round_nonneg (x : R) : 0 <= x -> 0 <= IZR (JS.Math_round x).
Proof.
  intros Hx. apply IZR_le. unfold JS.Math_round. apply Zfloor_lub. simpl. lra.
Qed.

Lemma eta_nonneg (c : State) (d : R) :
  0 <= d -> 0 <= IZR (JS.Math_round (d / avgSpeed c * 60)).
Proof.
  intros Hd. apply Math_round_nonneg.
  pose proof (avgSpeed_floor c).
  apply Rmult_le_pos; [| lra].
  apply Rmult_le_pos; [exact Hd |]. left. apply Rinv_0_lt_compat. lra.
Qed.

Lemma onPosition_nonneg (P : Props) (s : State) (pos : GeoSample) :
  displayedNonneg s -> displayedNonneg (fst (onPosition P s pos)).
Proof.
  intros (H1 & H2 & H3 & H4). unfold onPosition.
  destruct (recordReading_frame pos s) as (_ & _ & _ & R1 & R2 & R3 & R4).
  assert (Hw : displayedNonneg (fst (trackWaypoint P s pos (recordReading pos s)))).
  { destruct (trackWaypoint_frame_view P s pos (recordReading pos s))
      as (_ & _ & _ & W1 & W2).
    unfold displayedNonneg. rewrite W1, W2, R1, R2.
    split; [exact H1 |]. split; [exact H2 |].
    unfold trackWaypoint.
    destruct (currentDestination P s) as [d |]; [| simpl; lra].
    destruct (d_lat d) as [dlat |]; [| simpl; lra].
    destruct (d_lon d) as [dlon |]; [| simpl; lra].
    destruct (JS.truthy (Some dlat) && JS.truthy (Some dlon)); [| simpl; lra].
    pose proof (calcDist_nonneg (latitude pos) (longitude pos) dlat dlon) as Hd.
    pose proof (eta_nonneg s _ Hd) as Ht.
    destruct (Rlt_dec _ 0.2); [destruct (_ <? _)%Z |]; simpl;
      (split; [apply Rmax_l | exact Ht]). }
  destruct (trackWaypoint P s pos (recordReading pos s)) as [s2 toasts].
  simpl in *. destruct Hw as (W1 & W2 & W3 & W4).
  assert (Ht : displayedNonneg (trackTrip P s pos s2)).
  { destruct (trackTrip_frame P s pos s2) as (_ & _ & _ & T3 & T4 & _).
    unfold displayedNonneg. rewrite T3, T4.
    assert (0 <= remainingDistance (trackTrip P s pos s2)
            /\ 0 <= remainingTime (trackTrip P s pos s2)) as [T1 T2].
    { unfold trackTrip.
      destruct (endCoords P) as [e |]; [| auto].
      destruct (totalDistance P) as [total |]; [| auto].
      destruct (JS.truthy (Some total)); [| auto].
      pose proof (calcDist_nonneg (latitude pos) (longitude pos) (c_lat e) (c_lon e))
        as Hd.
      simpl. split; [apply Rmax_l | apply eta_nonneg; exact Hd]. }
    auto. }
  destruct (trackOffRoute_frame P s pos (trackTrip P s pos s2))
    as (_ & _ & O1 & O2 & O3 & O4).
  unfold displayedNonneg. rewrite O1, O2, O3, O4. exact Ht.
Qed.

Lemma step_nonneg (sys : System) (e : Event) :
  displayedNonneg (nav sys) -> displayedNonneg (nav (fst (step sys e))).
Proof.
  intros Hinv. destruct e; simpl; auto.
  - pose proof (onPosition_nonneg (props sys) (nav sys) pos Hinv) as H.
    destruct (onPosition (props sys) (nav sys) pos). exact H.
  - unfold drivingTick.
    destruct (drivingTime (nav sys) + 1 =? 240)%Z; exact Hinv.
  - destruct (currentPosition (nav sys)); exact Hinv.
  - destruct (handleRecalculate (props sys) (nav sys) now) as [s' [p |]] eqn:H.
    + apply handleRecalculate_accepted in H as (_ & _ & _ & ->). exact Hinv.
    + apply handleRecalculate_dropped in H. subst. exact Hinv.
  - destruct (nth_error (inflight sys) k); [| exact Hinv].
    destruct (settleRecalculate (props sys) c outcome). exact Hinv.
Qed.

(** X5: when the total distance and duration handed to the component are
    absent or not negative, the four figures of the bottom bar -- remaining
    distance, remaining time, distance and time to the next stop -- are
    never negative, after any sequence of events. *)
Theorem displayed_figures_nonneg (P : Props) (evs : list Event) :
  nonnegProp (totalDistance P) -> nonnegProp (totalDuration P) ->
  displayedNonneg (nav (fst (run (mount P) evs))).
Proof.
  intros Hdist Hdur.
  apply (run_invariant (fun sys => displayedNonneg (nav sys))).
  - exact step_nonneg.
  - unfold displayedNonneg. simpl.
    repeat split; try lra.
    + unfold JS.or_else. destruct (totalDistance P) as [x |]; simpl in *;
        [destruct (Req_dec_T x 0) |]; lra.
    + unfold JS.or_else. destruct (totalDuration P) as [x |]; simpl in *;
        [destruct (Req_dec_T x 0) |]; lra.
Qed.

(** ** Off-route detection at its edges *)

Lemma onPosition_prompt (P : Props) (s : State) (pos : GeoSample) :
  showRecalculatePrompt (fst (onPosition P s pos))
  = if checkIfOffRoute (route P) (latitude pos) (longitude pos)
       && negb (isOffRoute s)
    then true else showRecalculatePrompt s.
Proof.
  unfold onPosition.
  destruct (trackWaypoint_frame_view P s pos (recordReading pos s))
    as (_ & _ & Hw & _).
  destruct (trackWaypoint P s pos (recordReading pos s)) as [s2 toasts].
  simpl in *.
  destruct (trackTrip_frame P s pos s2) as (_ & _ & Ht & _).
  destruct (recordReading_frame pos s) as (_ & _ & Hr & _).
  unfold trackOffRoute.
  destruct (_ && _); simpl; [reflexivity | congruence].
Qed.

(** X6: while the route is absent or has no point, no sequence of position
    samples sets [isOffRoute] or opens the recalculation prompt: without a
    route the engine never reports a departure. *)
Theorem no_route_never_flagged (P : Props) (s : State) (infl : list Coords)
  (samples : list GeoSample) :
  route P = None \/ route P = Some [] ->
  let sys' := fst (run (mkSystem P s infl) (map PositionUpdate samples)) in
  isOffRoute (nav sys') = isOffRoute s
  /\ showRecalculatePrompt (nav sys') = showRecalculatePrompt s.
Proof.
  intros Hroute. revert s.
  induction samples as [| pos samples IH]; intros s.
  - simpl. auto.
  - simpl map. rewrite run_cons. simpl fst.
    assert (Hcheck : checkIfOffRoute (route P) (latitude pos) (longitude pos) = false)
      by (destruct Hroute as [-> | ->]; reflexivity).
    pose proof (onPosition_isOffRoute P s pos) as Hflag.
    pose proof (onPosition_prompt P s pos) as Hprompt.
    rewrite Hcheck in Hflag, Hprompt. rewrite orb_false_r in Hflag.
    simpl in Hprompt.
    simpl step. destruct (onPosition P s pos) as [s1 eff]. simpl in *.
    destruct (IH s1) as [IH1 IH2]. simpl in IH1, IH2.
    rewrite IH1, IH2. auto.
Qed.

(** A sample that stands on a point of the route is not off the route. *)
Lemma on_vertex_not_off (r : list (R * R)) (lat lon : R) :
  In (lat, lon) r -> checkIfOffRoute (Some r) lat lon = false.
Proof.
  intros Hin.
  destruct (checkIfOffRoute (Some r) lat lon) eqn:Hc; [| reflexivity].
  apply checkIfOffRoute_spec in Hc as (pts & Heq & _ & Hfar).
  inversion Heq; subst pts.
  rewrite Forall_forall in Hfar. specialize (Hfar _ Hin).
  unfold farFrom in Hfar. simpl in Hfar.
  rewrite calcDist_meridian in Hfar.
  - replace (lat - lat) with 0 in Hfar by lra. rewrite Rabs_R0 in Hfar. lra.
  - replace (lat - lat) with 0 by lra. rewrite Rabs_R0. lra.
Qed.

Lemma run_cons_fst (sys : System) (e : Event) (evs : list Event) :
  fst (run sys (e :: evs)) = fst (run (fst (step sys e)) evs).
Proof. rewrite run_cons. reflexivity. Qed.

Lemma run_nil_fst (sys : System) : fst (run sys []) = sys.
Proof. reflexivity. Qed.

Lemma nth_error_snoc {A : Type} (l : list A) (x : A) :
  nth_error (l ++ [x]) (List.length l) = Some x.
Proof.
  rewrite nth_error_app2 by lia. rewrite Nat.sub_diag. reflexivity.
Qed.

(** X7: recovery by recalculation.  When a trigger is accepted, its request
    is answered with a route, and the next position sample stands on a
    point of that route, the session is on route again: the new polyline
    (the answer's [lon, lat] pairs turned into [lat, lon]) has replaced the
    old one, and [isOffRoute] and the prompt are both false. *)
Theorem recalculation_recovers (sys : System) (now : Z) (p : Coords)
  (mainRoute : MainRoute) (g : list (R * R)) (pos : GeoSample) :
  snd (handleRecalculate (props sys) (nav sys) now) = Some p ->
  geometry mainRoute = Some g ->
  In (longitude pos, latitude pos) g ->
  let sys' :=
    fst (run sys [RecalculateClicked now;
                  RoutingSettled (List.length (inflight sys)) (Responded mainRoute);
                  PositionUpdate pos]) in
  route (props sys') = Some (map (fun c => (snd c, fst c)) g)
  /\ isOffRoute (nav sys') = false
  /\ showRecalculatePrompt (nav sys') = false
  /\ inflight sys' = inflight sys.
Proof.
  intros Hacc Hgeo Hin sys'.
  destruct (handleRecalculate (props sys) (nav sys) now) as [s1 q] eqn:H.
  simpl in Hacc. subst q.
  pose proof (handleRecalculate_accepted _ _ _ _ _ H) as (_ & _ & _ & Hs1).
  set (P2 := fst (settleRecalculate (props sys) p (Responded mainRoute))).
  assert (Hroute : route P2 = Some (map (fun c => (snd c, fst c)) g))
    by (unfold P2; simpl; rewrite Hgeo; reflexivity).
  assert (Hsys' : sys' = mkSystem P2 (fst (onPosition P2 s1 pos)) (inflight sys)).
  { unfold sys'. rewrite !run_cons_fst, run_nil_fst.
    assert (E1 : fst (step sys (RecalculateClicked now))
                 = mkSystem (props sys) s1 (inflight sys ++ [p]))
      by (simpl; rewrite H; reflexivity).
    rewrite E1.
    assert (E2 : fst (step (mkSystem (props sys) s1 (inflight sys ++ [p]))
                        (RoutingSettled (List.length (inflight sys))
                           (Responded mainRoute)))
                 = mkSystem P2 s1 (inflight sys)).
    { cbn [step props nav inflight]. rewrite nth_error_snoc.
      assert (Hrm : remove_nth (List.length (inflight sys)) (inflight sys ++ [p])
                    = inflight sys).
      { clear. induction (inflight sys) as [| x l IH]; simpl; [reflexivity |].
        rewrite IH. reflexivity. }
      rewrite Hrm. unfold P2.
      destruct (settleRecalculate (props sys) p (Responded mainRoute)).
      reflexivity. }
    rewrite E2. cbn [step props nav inflight].
    destruct (onPosition P2 s1 pos). reflexivity. }
  rewrite Hsys'. cbn [props nav inflight].
  assert (Hcheck : checkIfOffRoute (route P2) (latitude pos) (longitude pos) = false).
  { rewrite Hroute. apply on_vertex_not_off.
    apply in_map_iff. exists (longitude pos, latitude pos). auto. }
  split; [exact Hroute |]. split; [| split; [| reflexivity]].
  - rewrite onPosition_isOffRoute, Hcheck, Hs1. reflexivity.
  - rewrite onPosition_prompt, Hcheck, Hs1. reflexivity.
Qed.

(** ** Destinations and arrivals *)

(** X8: the destination list holds only entries whose latitude and
    longitude are both present and non-zero, has at most one entry per
    waypoint plus one, and ends with the final destination exactly when
    the end coordinates are present with non-zero latitude and longitude;
    an end point on the equator or on the prime meridian is left out. *)
Theorem destinations_structure (P : Props) :
  let final :=
    {| d_name := if is_de (language P) then "Ziel" else "Destination";
       d_lat := option_map c_lat (endCoords P);
       d_lon := option_map c_lon (endCoords P);
       d_isRestStop := false |} in
  Forall (fun d => exists x y, d_lat d = Some x /\ d_lon d = Some y
                               /\ x <> 0 /\ y <> 0) (allDestinations P)
  /\ (List.length (allDestinations P) <= List.length (waypoints P) + 1)%nat
  /\ ((exists e, endCoords P = Some e /\ c_lat e <> 0 /\ c_lon e <> 0)
      <-> exists front, allDestinations P = front ++ [final]).
Proof.
  intros final.
  assert (Htruthy : forall v, JS.truthy v = true -> exists x, v = Some x /\ x <> 0).
  { intros [x |]; simpl; [| discriminate].
    destruct (Req_dec_T x 0); [discriminate |]. eauto. }
  assert (Hkept : forall d, In d (allDestinations P) ->
                  exists x y, d_lat d = Some x /\ d_lon d = Some y /\ x <> 0 /\ y <> 0).
  { intros d Hin. unfold allDestinations in Hin.
    apply filter_In in Hin as [_ Hf]. apply andb_true_iff in Hf as [H1 H2].
    destruct (Htruthy _ H1) as (x & Hx & Hx0).
    destruct (Htruthy _ H2) as (y & Hy & Hy0). eauto 10. }
  split; [apply Forall_forall; exact Hkept |]. split.
  - unfold allDestinations.
    match goal with
    | |- (List.length (filter ?f ?l) <= _)%nat =>
        pose proof (filter_length_le f l) as Hle; rewrite length_app, length_map in Hle
    end.
    simpl in Hle. exact Hle.
  - unfold allDestinations. rewrite filter_app. fold final. split.
    + intros (e & He & Hlat & Hlon). eexists. f_equal.
      cbn [filter]. unfold final at 1 2. cbn [d_lat d_lon]. rewrite He. simpl.
      destruct (Req_dec_T (c_lat e) 0); [contradiction |].
      destruct (Req_dec_T (c_lon e) 0); [contradiction |]. reflexivity.
    + intros (front & Heq).
      assert (Hin : In final (allDestinations P)).
      { unfold allDestinations. rewrite filter_app. fold final. rewrite Heq.
        apply in_or_app. right. left. reflexivity. }
      destruct (Hkept _ Hin) as (x & y & Hx & Hy & Hx0 & Hy0).
      unfold final in Hx, Hy. cbn [d_lat d_lon] in Hx, Hy.
      destruct (endCoords P) as [e |]; [| discriminate].
      exists e. simpl in Hx, Hy. inversion Hx; inversion Hy; subst. auto.
Qed.

Lemma onPosition_toasts (P : Props) (s : State) (pos : GeoSample) :
  snd (onPosition P s pos) = snd (trackWaypoint P s pos (recordReading pos s))
  /\ currentWaypointIndex (fst (onPosition P s pos))
     = currentWaypointIndex (fst (trackWaypoint P s pos (recordReading pos s))).
Proof.
  unfold onPosition.
  destruct (trackWaypoint P s pos (recordReading pos s)) as [s2 toasts].
  simpl. split; [reflexivity |].
  unfold trackOffRoute, trackTrip. break_match; reflexivity.
Qed.

(** X9: a position sample either leaves the waypoint index alone and shows
    no toast, or advances the index by one -- which it only does while the
    index is not the last one -- and shows exactly one toast, naming the
    destination that was reached.  Reaching the final destination is
    therefore never announced. *)
Theorem arrival_announced (P : Props) (s : State) (pos : GeoSample) :
  let i := currentWaypointIndex s in
  let i' := currentWaypointIndex (fst (onPosition P s pos)) in
  let toasts := snd (onPosition P s pos) in
  (i' = i /\ toasts = [])
  \/ (i' = (i + 1)%nat
      /\ (i + 1 < List.length (allDestinations P))%nat
      /\ exists d,
           currentDestination P s = Some d
           /\ toasts = [ToastSuccess
                          (d_name d ++ (if is_de (language P)
                                        then " erreicht!" else " reached!"))%string]).
Proof.
  intros i i' toasts. subst i' toasts.
  destruct (onPosition_toasts P s pos) as [-> ->].
  assert (Hr : currentWaypointIndex (recordReading pos s) = currentWaypointIndex s)
    by (unfold recordReading; break_match; reflexivity).
  unfold trackWaypoint.
  destruct (currentDestination P s) as [d |]; [| left; auto].
  destruct (d_lat d) as [dlat |]; [| left; auto].
  destruct (d_lon d) as [dlon |]; [| left; auto].
  destruct (JS.truthy (Some dlat) && JS.truthy (Some dlon)); [| left; auto].
  destruct (Rlt_dec _ 0.2) as [Hnear |]; [| left; simpl; auto].
  destruct (_ <? _)%Z eqn:Hlast; [| left; simpl; auto].
  right. simpl. rewrite Hr. apply Z.ltb_lt in Hlast.
  split; [reflexivity |]. split; [subst i; lia |].
  exists d. auto.
Qed.

(** ** What the component shows *)

(** X10: the traffic label is heavy above 20 minutes of delay, slow above
    5 and up to 20, and normal up to 5; a longer delay never gets a milder
    label. *)
Theorem traffic_status_monotone (d1 d2 : R) :
  (currentTrafficStatus d1 = heavy <-> 20 < d1)
  /\ (currentTrafficStatus d1 = slow <-> 5 < d1 <= 20)
  /\ (currentTrafficStatus d1 = normal <-> d1 <= 5)
  /\ (d1 <= d2 ->
      (severity (currentTrafficStatus d1) <= severity (currentTrafficStatus d2))%nat).
Proof.
  unfold currentTrafficStatus.
  destruct (Rgt_dec d1 20); destruct (Rgt_dec d1 5);
    destruct (Rgt_dec d2 20); destruct (Rgt_dec d2 5);
    repeat split; intros; simpl; try discriminate; try lra; try lia.
Qed.

(** Floor and remainder of a whole number of minutes. *)
Lemma whole_minutes_split (n : Z) :
  (0 <= n)%Z ->
  Zfloor (IZR n / 60) = (n / 60)%Z
  /\ JS.Math_round (JS.rem (IZR n) 60) = (n mod 60)%Z.
Proof.
  intros Hn.
  pose proof (Z.div_mod n 60 ltac:(lia)) as Hdm.
  pose proof (Z.mod_pos_bound n 60 ltac:(lia)) as Hr.
  assert (Hq : (0 <= n / 60)%Z) by (apply Z.div_pos; lia).
  assert (HR : IZR n = 60 * IZR (n / 60) + IZR (n mod 60)).
  { rewrite Hdm at 1. rewrite plus_IZR, mult_IZR. reflexivity. }
  assert (Hr0 : 0 <= IZR (n mod 60)) by (apply IZR_le; lia).
  assert (Hr60 : IZR (n mod 60) <= 59) by (apply IZR_le; lia).
  assert (Hfloor : Zfloor (IZR n / 60) = (n / 60)%Z).
  { apply Zfloor_eq. rewrite HR. lra. }
  split; [exact Hfloor |].
  unfold JS.rem, JS.trunc.
  destruct (Rle_dec 0 (IZR n / 60)) as [_ | Hneg].
  - rewrite Hfloor. apply Math_round_eq. lra.
  - exfalso. apply Hneg. rewrite HR.
    assert (0 <= IZR (n / 60)) by (apply IZR_le; lia). lra.
Qed.

(** X11: for a whole, non-negative number of minutes [n], [fmtTime] shows
    the minutes alone when [n] is below 60 and otherwise the hours [n / 60]
    followed by the minutes [n mod 60], which are below 60. *)
Theorem fmtTime_whole_minutes (n : Z) :
  (0 <= n)%Z ->
  fmtTime (IZR n)
  = if (n <? 60)%Z
    then (showInt n ++ " min")%string
    else (showInt (n / 60) ++ " h " ++ showInt (n mod 60) ++ " min")%string.
Proof.
  intros Hn. unfold fmtTime. cbv zeta.
  destruct (whole_minutes_split n Hn) as [-> ->].
  destruct (Z.ltb_spec n 60) as [Hlt | Hge].
  - rewrite Z.div_small by lia. rewrite Z.mod_small by lia. reflexivity.
  - assert (Hq : (1 <= n / 60)%Z) by (apply Z.div_le_lower_bound; lia).
    destruct (Z.eqb_spec (n / 60) 0); [lia | reflexivity].
Qed.

Lemma eta_whole (c : State) (d : R) :
  0 <= d -> wholeMinutes (IZR (JS.Math_round (d / avgSpeed c * 60))).
Proof.
  intros Hd. exists (JS.Math_round (d / avgSpeed c * 60)).
  split; [| reflexivity]. apply le_IZR. apply eta_nonneg. exact Hd.
Qed.

Lemma onPosition_timesWhole (P : Props) (s : State) (pos : GeoSample) :
  timesWhole s -> timesWhole (fst (onPosition P s pos)).
Proof.
  intros (H1 & H2 & H3). unfold timesWhole.
  destruct (onPosition_frame P s pos) as [_ ->].
  split; [| split; [| exact H3]].
  - unfold onPosition.
    destruct (trackWaypoint_frame_view P s pos (recordReading pos s))
      as (_ & _ & _ & _ & Hw).
    destruct (trackWaypoint P s pos (recordReading pos s)) as [s2 toasts].
    simpl in *.
    destruct (trackOffRoute_frame P s pos (trackTrip P s pos s2))
      as (_ & _ & _ & -> & _).
    destruct (recordReading_frame pos s) as (_ & _ & _ & _ & Hr & _).
    unfold trackTrip.
    destruct (endCoords P) as [e |]; [| congruence].
    destruct (totalDistance P) as [total |]; [| congruence].
    destruct (JS.truthy (Some total)); [| congruence].
    simpl. apply eta_whole. apply calcDist_nonneg.
  - unfold onPosition.
    assert (Hw : wholeMinutes
                   (timeToNextWaypoint
                      (fst (trackWaypoint P s pos (recordReading pos s))))).
    { destruct (recordReading_frame pos s) as (_ & _ & _ & _ & _ & _ & Hr).
      unfold trackWaypoint.
      destruct (currentDestination P s) as [d |]; [| simpl; congruence].
      destruct (d_lat d) as [dlat |]; [| simpl; congruence].
      destruct (d_lon d) as [dlon |]; [| simpl; congruence].
      destruct (JS.truthy (Some dlat) && JS.truthy (Some dlon));
        [| simpl; congruence].
      pose proof (eta_whole s _ (calcDist_nonneg (latitude pos) (longitude pos)
                                   dlat dlon)) as Ht.
      destruct (Rlt_dec _ 0.2); [destruct (_ <? _)%Z |]; simpl; exact Ht. }
    destruct (trackWaypoint P s pos (recordReading pos s)) as [s2 toasts].
    simpl in *.
    destruct (trackOffRoute_frame P s pos (trackTrip P s pos s2))
      as (_ & _ & _ & _ & _ & ->).
    destruct (trackTrip_frame P s pos s2) as (_ & _ & _ & _ & -> & _).
    exact Hw.
Qed.

Lemma step_timesWhole (sys : System) (e : Event) :
  timesWhole (nav sys) -> timesWhole (nav (fst (step sys e))).
Proof.
  intros Hinv. destruct e; simpl; auto.
  - pose proof (onPosition_timesWhole (props sys) (nav sys) pos Hinv) as H.
    destruct (onPosition (props sys) (nav sys) pos). exact H.
  - destruct Hinv as (H1 & H2 & n & Hn & Heq). apply eq_IZR in Heq.
    assert (Hd : wholeMinutes (IZR (drivingTime (nav sys) + 1)))
      by (exists (drivingTime (nav sys) + 1)%Z; split; [lia | reflexivity]).
    unfold drivingTick.
    destruct (drivingTime (nav sys) + 1 =? 240)%Z; simpl;
      (split; [exact H1 | split; [exact H2 | exact Hd]]).
  - destruct (currentPosition (nav sys)); exact Hinv.
  - destruct (handleRecalculate (props sys) (nav sys) now) as [s' [p |]] eqn:H.
    + apply handleRecalculate_accepted in H as (_ & _ & _ & ->). exact Hinv.
    + apply handleRecalculate_dropped in H. subst. exact Hinv.
  - destruct (nth_error (inflight sys) k); [| exact Hinv].
    destruct (settleRecalculate (props sys) c outcome). exact Hinv.
Qed.

(** X12: when the total duration handed to the component is absent or a
    whole, non-negative number of minutes, every time the component passes
    to [fmtTime] -- the remaining time, the time to the next stop and the
    driving time -- is a whole, non-negative number of minutes after any
    sequence of events (so [fmtTime] shows it exactly, as hours and
    minutes below 60). *)
Theorem displayed_times_whole (P : Props) (evs : list Event) :
  match totalDuration P with Some x => wholeMinutes x | None => True end ->
  timesWhole (nav (fst (run (mount P) evs))).
Proof.
  intros Hdur.
  apply (run_invariant (fun sys => timesWhole (nav sys))).
  - exact step_timesWhole.
  - unfold timesWhole. simpl.
    assert (Hzero : wholeMinutes 0) by (exists 0%Z; split; [lia | reflexivity]).
    split; [| split; assumption].
    unfold JS.or_else. destruct (totalDuration P) as [x |]; simpl; [| exact Hzero].
    destruct (Req_dec_T x 0); [exact Hzero | exact Hdur].
Qed.

Lemma string_append_assoc (a b c : string) :
  ((a ++ b) ++ c)%string = (a ++ b ++ c)%string.
Proof.
  induction a as [| ch a IH]; simpl; [reflexivity | rewrite IH; reflexivity].
Qed.

(** X13: for a distance that is not negative, [fmtDist] shows whole metres
    below 1 km -- a figure between 0 and 1000 that is within half a metre
    of the distance, and that is "1000 m" from 999.5 m on -- and otherwise
    kilometres with one decimal digit, within 0.05 km of the distance. *)
Theorem fmtDist_units (km : R) :
  0 <= km ->
  (km < 1 ->
   exists n : Z,
     fmtDist km = (showInt n ++ " m")%string
     /\ (0 <= n <= 1000)%Z /\ Rabs (IZR n - km * 1000) <= / 2)
  /\ (0.9995 <= km < 1 -> fmtDist km = "1000 m"%string)
  /\ (1 <= km ->
      exists a b : Z,
        fmtDist km = (showInt a ++ "." ++ showInt b ++ " km")%string
        /\ (1 <= a)%Z /\ (0 <= b <= 9)%Z
        /\ Rabs (IZR a + IZR b / 10 - km) <= 0.05).
Proof.
  intros Hkm. unfold fmtDist. split; [| split].
  - intros Hlt. destruct (Rlt_dec km 1) as [_ | Hn]; [| contradiction].
    exists (JS.Math_round (km * 1000)). split; [reflexivity |].
    unfold JS.Math_round.
    pose proof (Zfloor_bound (km * 1000 + / 2)) as [Hlo Hhi].
    split; [split |].
    + apply Zfloor_lub. simpl. lra.
    + apply Z.lt_succ_r. apply lt_IZR. rewrite succ_IZR. lra.
    + apply Rabs_le. lra.
  - intros [Hlo Hhi]. destruct (Rlt_dec km 1) as [_ | Hn]; [| contradiction].
    rewrite (Math_round_eq _ 1000) by lra. reflexivity.
  - intros Hge. destruct (Rlt_dec km 1) as [Habs | _]; [lra |].
    unfold toFixed1String. destruct (Rlt_dec km 0) as [Habs | _]; [lra |].
    unfold fixedDigits1. cbv zeta.
    set (n := JS.Math_round (km * 10)).
    exists (n / 10)%Z, (n mod 10)%Z.
    split; [rewrite !string_append_assoc; reflexivity |].
    pose proof (Zfloor_bound (km * 10 + / 2)) as [Hlo Hhi]. fold (JS.Math_round (km * 10)) in Hlo, Hhi.
    fold n in Hlo, Hhi.
    assert (Hn10 : (10 <= n)%Z) by (apply Zfloor_lub; simpl; lra).
    pose proof (Z.div_mod n 10 ltac:(lia)) as Hdm.
    pose proof (Z.mod_pos_bound n 10 ltac:(lia)) as Hr.
    split; [apply Z.div_le_lower_bound; lia |]. split; [lia |].
    assert (HR : IZR n = 10 * IZR (n / 10) + IZR (n mod 10)).
    { rewrite Hdm at 1. rewrite plus_IZR, mult_IZR. reflexivity. }
    apply Rabs_le. lra.
Qed.

(** ** The bottom sheet *)

Lemma handleTouchMove_idle (y : R) (u : Sheet) :
  JS.truthy (touchStart u) = false -> handleTouchMove y u = u.
Proof.
  intros H. unfold handleTouchMove. rewrite H. reflexivity.
Qed.

Lemma moves_idle (ys : list R) (u : Sheet) :
  JS.truthy (touchStart u) = false ->
  fold_left (fun v y => handleTouchMove y v) ys u = u.
Proof.
  intros H. induction ys as [| y ys IH]; simpl; [reflexivity |].
  rewrite handleTouchMove_idle by exact H. exact IH.
Qed.

Lemma handleTouchMove_tracking (y0 y : R) (b : option bool) :
  y0 <> 0 ->
  handleTouchMove y (mkSheet b (Some y0))
  = if Rgt_dec (y0 - y) 40 then
      mkSheet (match b with
               | None => Some false
               | Some false => Some true
               | Some true => Some true
               end) None
    else if Rlt_dec (y0 - y) (- 40) then
      mkSheet (match b with
               | Some true => Some false
               | Some false => None
               | None => None
               end) None
    else mkSheet b (Some y0).
Proof.
  intros Hy0. unfold handleTouchMove. cbn [touchStart bottomSheetExpanded].
  rewrite (truthy_nonzero y0 Hy0). reflexivity.
Qed.

(** The moves of a touch that began at [y0]: either none crossed 40 px and
    nothing changed, or the first that did moved the sheet by at most one
    step in its own direction and ended the tracking. *)
Lemma moves_tracking (y0 : R) (ys : list R) (b : option bool) :
  y0 <> 0 ->
  let u' := fold_left (fun v y => handleTouchMove y v) ys (mkSheet b (Some y0)) in
  u' = mkSheet b (Some y0)
  \/ (touchStart u' = None
      /\ ((exists y, In y ys /\ y0 - y > 40
                     /\ (openLevel b <= openLevel (bottomSheetExpanded u')
                         <= openLevel b + 1)%Z)
          \/ (exists y, In y ys /\ y0 - y < - 40
                        /\ (openLevel b - 1 <= openLevel (bottomSheetExpanded u')
                            <= openLevel b)%Z))).
Proof.
  intros Hy0. induction ys as [| y ys IH]; [left; reflexivity |].
  cbn [fold_left]. cbv zeta. rewrite (handleTouchMove_tracking y0 y b Hy0).
  destruct (Rgt_dec (y0 - y) 40) as [Hup | Hnup].
  - right. rewrite moves_idle by reflexivity. cbn [touchStart bottomSheetExpanded].
    split; [reflexivity |]. left. exists y.
    split; [left; reflexivity |]. split; [exact Hup |].
    destruct b as [[|] |]; simpl; lia.
  - destruct (Rlt_dec (y0 - y) (- 40)) as [Hdown | Hndown].
    + right. rewrite moves_idle by reflexivity. cbn [touchStart bottomSheetExpanded].
      split; [reflexivity |]. right. exists y.
      split; [left; reflexivity |]. split; [exact Hdown |].
      destruct b as [[|] |]; simpl; lia.
    + destruct IH as [IH | (Ht & [(z & Hin & Hz) | (z & Hin & Hz)])].
      * left. exact IH.
      * right. split; [exact Ht |]. left. exists z. split; [right; exact Hin | exact Hz].
      * right. split; [exact Ht |]. right. exists z. split; [right; exact Hin | exact Hz].
Qed.

(** X14: one touch on the bottom sheet -- begin, any moves, end -- changes
    the sheet by at most one step between hidden, collapsed and expanded:
    it opens one step only if some move went more than 40 px above the
    start, closes one step only if some move went more than 40 px below,
    and always ends with no touch being tracked.  A touch that begins at
    [clientY = 0] never moves the sheet. *)
Theorem sheet_gesture_one_step (y0 : R) (ys : list R) (u : Sheet) :
  let u' := touchGesture y0 ys u in
  let before := openLevel (bottomSheetExpanded u) in
  let after := openLevel (bottomSheetExpanded u') in
  touchStart u' = None
  /\ (before - 1 <= after <= before + 1)%Z
  /\ ((before < after)%Z -> exists y, In y ys /\ y0 - y > 40)
  /\ ((after < before)%Z -> exists y, In y ys /\ y0 - y < - 40)
  /\ (y0 = 0 -> bottomSheetExpanded u' = bottomSheetExpanded u).
Proof.
  intros u' before after. subst u' before after. unfold touchGesture, handleTouchStart.
  split; [reflexivity |].
  destruct (Req_dec_T y0 0) as [Hzero | Hnz].
  - subst y0. rewrite moves_idle.
    + cbn [handleTouchEnd bottomSheetExpanded]. repeat split; try lia; auto.
    + simpl. destruct (Req_dec_T 0 0); [reflexivity | contradiction].
  - destruct (moves_tracking y0 ys (bottomSheetExpanded u) Hnz)
      as [-> | (_ & [(y & Hin & Hup & Hlvl) | (y & Hin & Hdown & Hlvl)])];
      cbn [handleTouchEnd bottomSheetExpanded].
    + repeat split; try lia; try contradiction.
    + repeat split; try lia; intros; try lia; try contradiction. eauto.
    + repeat split; try lia; intros; try lia; try contradiction. eauto.
Qed.

(** * Properties of the route planner page *)

(** ** Waypoints *)





Section RestStopInsertion.

Variable showNumber : R -> string.

Lemma findInsertIndex_shift (breakKm : R) (ws : list PlannerWaypoint) (i : nat) :
  findInsertIndex breakKm ws (S i) = option_map S (findInsertIndex breakKm ws i).
Proof.
  revert i. induction ws as [| w ws IH]; intros i; simpl; [reflexivity |].
  destruct (pw_coords w); [| apply IH].
  destruct (pw_km_on_route w); [| apply IH].
  destruct (Rlt_dec breakKm r); [reflexivity | apply IH].
Qed.

(** The index found never lies beyond the end of the list. *)
Lemma findInsertIndex_bound (breakKm : R) (ws : list PlannerWaypoint) (i : nat) :
  findInsertIndex breakKm ws 0 = Some i -> (i < List.length ws)%nat.
Proof.
  revert i. induction ws as [| w ws IH]; intros i; simpl; [discriminate |].
  assert (Hrest : option_map S (findInsertIndex breakKm ws 0) = Some i ->
                  (i < S (List.length ws))%nat).
  { destruct (findInsertIndex breakKm ws 0) as [j |]; simpl; [| discriminate].
    intros H. inversion H; subst. specialize (IH j eq_refl). lia. }
  rewrite findInsertIndex_shift.
  destruct (pw_coords w); [| exact Hrest].
  destruct (pw_km_on_route w); [| exact Hrest].
  destruct (Rlt_dec breakKm r); [| exact Hrest].
  intros H. inversion H. lia.
Qed.



End RestStopInsertion.

(** ** Break suggestions *)



Section CustomBreak.

Variable parseFloat : string -> option R.



End CustomBreak.

(** ** The search for rest stops *)

Section Sampling.

Variables sampleInterval totalPoints : nat.
Hypothesis interval_positive : (1 <= sampleInterval)%nat.

(** The loop visits [i], [i + sampleInterval], ... *)
Lemma sampleFrom_nth (fuel : nat) : forall i k j : nat,
  nth_error (sampleFrom fuel i sampleInterval totalPoints) k = Some j ->
  j = (i + k * sampleInterval)%nat /\ (j < totalPoints)%nat.
Proof.
  induction fuel as [| fuel IH]; intros i k j; simpl.
  - destruct k; discriminate.
  - destruct (Nat.ltb_spec i totalPoints) as [Hlt | Hge].
    + destruct k as [| k]; simpl.
      * intros H. inversion H; subst. split; [lia | exact Hlt].
      * intros H. apply IH in H as [-> Hj]. split; [lia | exact Hj].
    + destruct k; discriminate.
Qed.

(** ... and, given enough turns, stops only at the end of the route. *)
Lemma sampleFrom_length (fuel : nat) : forall i : nat,
  (totalPoints - i <= fuel)%nat ->
  let n := List.length (sampleFrom fuel i sampleInterval totalPoints) in
  (totalPoints - i <= n * sampleInterval)%nat
  /\ (n * sampleInterval <= totalPoints - i + (sampleInterval - 1))%nat.
Proof.
  induction fuel as [| fuel IH]; intros i Hfuel; simpl.
  - lia.
  - destruct (Nat.ltb_spec i totalPoints) as [Hlt | Hge]; simpl; [| lia].
    destruct (IH (i + sampleInterval)%nat ltac:(lia)) as [IH1 IH2].
    cbv zeta in IH1, IH2.
    set (n := List.length
                (sampleFrom fuel (i + sampleInterval) sampleInterval totalPoints)) in *.
    split; [lia |].
    destruct (Nat.le_gt_cases (i + sampleInterval) totalPoints) as [Hin | Hout].
    + lia.
    + assert (n = 0)%nat by nia. subst n. lia.
Qed.

End Sampling.

(** X19: the rest-stop search samples the route at the indices 0,
    [sampleInterval], [2 * sampleInterval], ... below the number of route
    points, where [sampleInterval] is a tenth of that number (at least 1):
    the samples stop only at the end of the route, so that every route
    point is less than one interval beyond a sample, and there are never
    more than 19 of them (and at least 10 for a route of 10 points or
    more), however long the route is. *)
Theorem sample_indices_bounded (totalPoints : nat) :
  let sampleInterval := Nat.max 1 (totalPoints / 10) in
  let samples := sampleIndices totalPoints in
  (forall k j, nth_error samples k = Some j ->
               j = (k * sampleInterval)%nat /\ (j < totalPoints)%nat)
  /\ (totalPoints <= List.length samples * sampleInterval)%nat
  /\ (List.length samples <= 19)%nat
  /\ (List.length samples <= totalPoints)%nat
  /\ (10 <= totalPoints -> 10 <= List.length samples)%nat.
Proof.
  intros sampleInterval samples. subst samples. unfold sampleIndices. cbv zeta.
  fold sampleInterval.
  assert (Hpos : (1 <= sampleInterval)%nat) by (unfold sampleInterval; lia).
  destruct (sampleFrom_length sampleInterval totalPoints Hpos totalPoints 0%nat
              ltac:(lia)) as [Hlo Hhi].
  cbv zeta in Hlo, Hhi. rewrite Nat.sub_0_r in Hlo, Hhi.
  set (n := List.length (sampleFrom totalPoints 0 sampleInterval totalPoints)) in *.
  pose proof (Nat.div_mod_eq totalPoints 10) as Hdm.
  pose proof (Nat.mod_upper_bound totalPoints 10 ltac:(lia)) as Hr.
  set (q := (totalPoints / 10)%nat) in *. set (r := (totalPoints mod 10)%nat) in *.
  assert (Hs : (sampleInterval = 1 /\ q = 0)%nat \/ (sampleInterval = q /\ 1 <= q)%nat)
    by (unfold sampleInterval; fold q; lia).
  split; [| split; [exact Hlo | split; [| split]]].
  - intros k j H.
    apply (sampleFrom_nth sampleInterval totalPoints Hpos) in H as [-> Hj].
    split; [lia | exact Hj].
  - destruct Hs as [[Hs Hq] | [Hs Hq]]; rewrite Hs in Hhi.
    + lia.
    + destruct (Nat.le_gt_cases n 19) as [Hle | Hgt]; [exact Hle | exfalso].
      assert (20 * q <= n * q)%nat by (apply Nat.mul_le_mono_r; lia). lia.
  - destruct Hs as [[Hs Hq] | [Hs Hq]]; rewrite Hs in Hhi.
    + lia.
    + destruct (Nat.le_gt_cases n totalPoints) as [Hle | Hgt]; [exact Hle | exfalso].
      assert ((totalPoints + 1) * q <= n * q)%nat by (apply Nat.mul_le_mono_r; lia).
      nia.
  - intros H10. destruct Hs as [[Hs Hq] | [Hs Hq]]; rewrite Hs in Hlo.
    + lia.
    + destruct (Nat.le_gt_cases 10 n) as [Hle | Hgt]; [exact Hle | exfalso].
      assert (n * q <= 9 * q)%nat by (apply Nat.mul_le_mono_r; lia). lia.
Qed.

Section Nearest.

Variables lat lon : R.

(** The scan from a state in which [ni] holds the best distance [m] so far:
    it either keeps [ni], no later point being strictly nearer, or ends at
    the first later point of least distance. *)
Lemma nearestScan_some (pts : list (R * R)) : forall (idx : nat) (m : R) (ni : nat),
  let r := nearestScan lat lon pts idx (Some m) ni in
  (r = ni /\ Forall (fun q => m <= degreeDist lat lon q) pts)
  \/ exists k p,
       r = (idx + k)%nat /\ nth_error pts k = Some p /\ degreeDist lat lon p < m
       /\ Forall (fun q => degreeDist lat lon p <= degreeDist lat lon q) pts
       /\ forall j q, (j < k)%nat -> nth_error pts j = Some q -> degreeDist lat lon p < degreeDist lat lon q.
Proof.
  induction pts as [| point rest IH]; intros idx m ni; simpl.
  - left. split; [reflexivity | constructor].
  - destruct (Rlt_dec (degreeDist lat lon point) m) as [Hlt | Hge].
    + destruct (IH (S idx) (degreeDist lat lon point) idx)
        as [[Hr Hall] | (k & p & Hr & Hnth & Hp & Hall & Hfirst)].
      * right. exists 0%nat, point. rewrite Hr.
        split; [lia |]. split; [reflexivity |]. split; [exact Hlt |].
        split; [constructor; [lra | exact Hall] |].
        intros j q Hj. lia.
      * right. exists (S k), p. rewrite Hr.
        split; [lia |]. split; [exact Hnth |]. split; [lra |].
        split; [constructor; [lra | exact Hall] |].
        intros [| j] q Hj Hq; simpl in Hq.
        -- inversion Hq; subst. exact Hp.
        -- apply (Hfirst j q); [lia | exact Hq].
    + destruct (IH (S idx) m ni)
        as [[Hr Hall] | (k & p & Hr & Hnth & Hp & Hall & Hfirst)].
      * left. split; [exact Hr |]. constructor; [lra | exact Hall].
      * right. exists (S k), p. rewrite Hr.
        split; [lia |]. split; [exact Hnth |]. split; [exact Hp |].
        split; [constructor; [lra | exact Hall] |].
        intros [| j] q Hj Hq; simpl in Hq.
        -- inversion Hq; subst. lra.
        -- apply (Hfirst j q); [lia | exact Hq].
Qed.

(** The index found for a route that has a point. *)
Lemma nearestIndex_spec (geometry : list (R * R)) :
  geometry <> [] ->
  exists p,
    nth_error geometry (nearestIndex geometry lat lon) = Some p
    /\ Forall (fun q => degreeDist lat lon p <= degreeDist lat lon q) geometry
    /\ forall j q, (j < nearestIndex geometry lat lon)%nat ->
                   nth_error geometry j = Some q -> degreeDist lat lon p < degreeDist lat lon q.
Proof.
  destruct geometry as [| point rest]; [contradiction |]. intros _.
  unfold nearestIndex. simpl. 
  destruct (nearestScan_some rest 1 (degreeDist lat lon point) 0)
    as [[Hr Hall] | (k & p & Hr & Hnth & Hp & Hall & Hfirst)]; rewrite Hr.
  - exists point. split; [reflexivity |].
    split; [constructor; [lra | exact Hall] |]. intros j q Hj. lia.
  - exists p. split; [exact Hnth |].
    split; [constructor; [lra | exact Hall] |].
    intros [| j] q Hj Hq; simpl in Hq.
    + inversion Hq; subst. exact Hp.
    + apply (Hfirst j q); [lia | exact Hq].
Qed.

End Nearest.

(** X20: for a route that has at least one point, the rest-stop search
    places a stop at the route point nearest to it (in degrees), and at the
    first such point when several are equally near; the position it then
    reports, the index's share of the route length rounded to a kilometre,
    lies between 0 and the rounded length of the route. *)
Theorem rest_stop_position (r : PlannerRoute) (lat lon : R) :
  pr_geometry r <> [] -> 0 <= pr_distance_km r ->
  let i := nearestIndex (pr_geometry r) lat lon in
  (exists p,
      nth_error (pr_geometry r) i = Some p
      /\ Forall (fun q => degreeDist lat lon p <= degreeDist lat lon q)
           (pr_geometry r)
      /\ forall j q, (j < i)%nat -> nth_error (pr_geometry r) j = Some q ->
                     degreeDist lat lon p < degreeDist lat lon q)
  /\ (0 <= kmOnRoute r lat lon <= JS.Math_round (pr_distance_km r))%Z.
Proof.
  intros Hne Hdist i.
  pose proof (nearestIndex_spec lat lon (pr_geometry r) Hne) as Hspec.
  split; [exact Hspec |].
  destruct Hspec as (p & Hnth & _).
  assert (Hlt : (i < List.length (pr_geometry r))%nat)
    by (apply nth_error_Some; unfold i; rewrite Hnth; discriminate).
  unfold kmOnRoute. fold i.
  assert (Hlen : 0 < INR (List.length (pr_geometry r))) by (apply lt_0_INR; lia).
  assert (Hi : 0 <= INR i) by apply pos_INR.
  assert (Hshare : 0 <= INR i / INR (List.length (pr_geometry r)) <= 1).
  { split.
    - apply Rmult_le_pos; [exact Hi |]. left. apply Rinv_0_lt_compat. exact Hlen.
    - apply Rmult_le_reg_r with (INR (List.length (pr_geometry r))); [exact Hlen |].
      replace (INR i / INR (List.length (pr_geometry r))
               * INR (List.length (pr_geometry r))) with (INR i) by (field; lra).
      rewrite Rmult_1_l. apply le_INR. lia. }
  split.
  - apply le_IZR. apply Math_round_nonneg. apply Rmult_le_pos; lra.
  - unfold JS.Math_round. apply Zfloor_le. nra.
Qed.

(** Sorting by route position. *)
Lemma insertByKm_perm (x : RestStop) (l : list RestStop) :
  Permutation (x :: l) (insertByKm x l).
Proof.
  induction l as [| y tl IH]; simpl; [reflexivity |].
  destruct (km_on_route y <? km_on_route x)%Z; [| reflexivity].
  rewrite perm_swap. apply perm_skip. exact IH.
Qed.

Lemma sortByKm_perm (l : list RestStop) : Permutation l (sortByKm l).
Proof.
  induction l as [| x tl IH]; simpl; [reflexivity |].
  rewrite <- insertByKm_perm. apply perm_skip. exact IH.
Qed.

Lemma insertByKm_sorted (x : RestStop) (l : list RestStop) :
  StronglySorted (fun a b => (km_on_route a <= km_on_route b)%Z) l ->
  StronglySorted (fun a b => (km_on_route a <= km_on_route b)%Z) (insertByKm x l).
Proof.
  induction l as [| y tl IH]; intros Hs; simpl.
  - repeat constructor.
  - inversion Hs as [| ? ? Htl Hall]; subst.
    destruct (Z.ltb_spec (km_on_route y) (km_on_route x)) as [Hlt | Hge].
    + constructor; [apply IH; exact Htl |].
      apply (Permutation_Forall (insertByKm_perm x tl)).
      constructor; [lia | exact Hall].
    + constructor; [exact Hs |].
      constructor; [exact Hge |].
      rewrite Forall_forall in Hall |- *. intros z Hz. specialize (Hall z Hz). lia.
Qed.

Lemma sortByKm_sorted (l : list RestStop) :
  StronglySorted (fun a b => (km_on_route a <= km_on_route b)%Z) (sortByKm l).
Proof.
  induction l as [| x tl IH]; simpl; [constructor |].
  apply insertByKm_sorted. exact IH.
Qed.

(** What stays of a sorted array: each stop kept is at least 8 km beyond
    every stop before it in the array, and beyond every stop kept. *)
Lemma spacedFrom_spec (rest : list RestStop) : forall before : list RestStop,
  StronglySorted (fun a b => (km_on_route a <= km_on_route b)%Z) (before ++ rest) ->
  StronglySorted (fun a b => (km_on_route a + 8 <= km_on_route b)%Z)
    (spacedFrom before rest)
  /\ Forall (fun y => In y rest
                      /\ forall s, In s before ->
                                   (km_on_route s + 8 <= km_on_route y)%Z)
       (spacedFrom before rest).
Proof.
  induction rest as [| stop tl IH]; intros before Hs; simpl.
  - split; constructor.
  - assert (Hs' : StronglySorted (fun a b => (km_on_route a <= km_on_route b)%Z)
                    ((before ++ [stop]) ++ tl))
      by (rewrite <- app_assoc; exact Hs).
    destruct (IH (before ++ [stop]) Hs') as [IH1 IH2].
    assert (Hlater : Forall (fun y => In y (stop :: tl)
                                      /\ forall s, In s before ->
                                           (km_on_route s + 8 <= km_on_route y)%Z)
                       (spacedFrom (before ++ [stop]) tl)).
    { rewrite Forall_forall in IH2 |- *. intros y Hy.
      destruct (IH2 y Hy) as [Hin Hgap]. split; [right; exact Hin |].
      intros s Hsin. apply Hgap. apply in_or_app. left. exact Hsin. }
    destruct (existsb _ before) eqn:Hnear.
    + split; [exact IH1 | exact Hlater].
    + split.
      * constructor; [exact IH1 |].
        rewrite Forall_forall in IH2 |- *. intros y Hy.
        destruct (IH2 y Hy) as [_ Hgap]. apply Hgap.
        apply in_or_app. right. left. reflexivity.
      * constructor; [| exact Hlater].
        split; [left; reflexivity |].
        intros s Hsin.
        assert (Hle : (km_on_route s <= km_on_route stop)%Z).
        { clear - Hs Hsin. induction before as [| b before IHb]; [contradiction |].
          simpl in Hs. inversion Hs as [| ? ? Htl Hall]; subst.
          destruct Hsin as [-> | Hsin]; [| apply IHb; assumption].
          rewrite Forall_forall in Hall. apply Hall.
          apply in_or_app. right. left. reflexivity. }
        assert (Hfar : (Z.abs (km_on_route s - km_on_route stop) <? 8)%Z = false).
        { destruct (Z.abs (km_on_route s - km_on_route stop) <? 8)%Z eqn:E;
            [| reflexivity].
          assert (existsb (fun s0 => (Z.abs (km_on_route s0 - km_on_route stop) <? 8)%Z)
                    before = true)
            by (apply existsb_exists; exists s; split; assumption).
          congruence. }
        apply Z.ltb_ge in Hfar. lia.
Qed.

(** X21: the rest stops that the search keeps are places that were found,
    listed in their order along the route and at least 8 km apart from one
    another; the stop nearest to the start of the route is always kept. *)
Theorem rest_stops_spaced (found : list RestStop) :
  let stops := restStopsOnRoute found in
  StronglySorted (fun a b => (km_on_route a + 8 <= km_on_route b)%Z) stops
  /\ (forall s, In s stops -> In s found)
  /\ (found <> [] ->
      exists first rest,
        stops = first :: rest
        /\ In first found
        /\ Forall (fun s => (km_on_route first <= km_on_route s)%Z) found).
Proof.
  intros stops. subst stops. unfold restStopsOnRoute.
  pose proof (sortByKm_sorted found) as Hsorted.
  pose proof (sortByKm_perm found) as Hperm.
  destruct (spacedFrom_spec (sortByKm found) [] Hsorted) as [Hs Hin].
  split; [exact Hs |]. split.
  - intros s Hsin. rewrite Forall_forall in Hin.
    destruct (Hin s Hsin) as [H _].
    apply (Permutation_in s (Permutation_sym Hperm)). exact H.
  - intros Hne.
    destruct (sortByKm found) as [| first tl] eqn:Hsort.
    + apply Permutation_sym, Permutation_nil in Hperm. contradiction.
    + simpl. exists first, (spacedFrom ([] ++ [first]) tl).
      split; [reflexivity |].
      split; [apply (Permutation_in first (Permutation_sym Hperm)); left; reflexivity |].
      inversion Hsorted as [| ? ? _ Hall]; subst.
      apply (Permutation_Forall (Permutation_sym Hperm)).
      constructor; [lia | exact Hall].
Qed.

(** ** Durations *)

(** The remainder of a duration by 60 minutes. *)
Lemma rem_sixty (minutes : R) :
  0 <= minutes ->
  JS.rem minutes 60 = minutes - 60 * IZR (Zfloor (minutes / 60))
  /\ 0 <= JS.rem minutes 60 < 60.
Proof.
  intros Hm. unfold JS.rem, JS.trunc.
  destruct (Rle_dec 0 (minutes / 60)) as [_ | Hneg]; [| exfalso; apply Hneg; lra].
  split; [reflexivity |].
  pose proof (Zfloor_bound (minutes / 60)). lra.
Qed.

(** X22: for a duration that is not negative, [formatDuration] shows the
    full hours, left out when there is none, and a whole number of minutes
    between 0 and 60; together they differ from the duration by at most
    half a minute.  The minutes read 60 exactly when the duration is within
    half a minute below a full hour; for a whole number of minutes they are
    the remainder by 60. *)
Theorem formatDuration_accuracy (minutes : R) :
  0 <= minutes ->
  exists h m : Z,
    formatDuration minutes
    = (if (0 <? h)%Z
       then (showInt h ++ "h " ++ showInt m ++ "min")%string
       else (showInt m ++ "min")%string)
    /\ (0 <= h)%Z /\ (0 <= m <= 60)%Z
    /\ IZR h * 60 <= minutes < IZR h * 60 + 60
    /\ Rabs (IZR h * 60 + IZR m - minutes) <= / 2
    /\ (m = 60%Z <-> IZR h * 60 + 60 - / 2 <= minutes)
    /\ (forall n : Z, minutes = IZR n -> h = (n / 60)%Z /\ m = (n mod 60)%Z).
Proof.
  intros Hm.
  destruct (rem_sixty minutes Hm) as [Hrem [Hr0 Hr60]].
  exists (Zfloor (minutes / 60)), (JS.Math_round (JS.rem minutes 60)).
  pose proof (Zfloor_bound (minutes / 60)) as Hfl.
  pose proof (Zfloor_bound (JS.rem minutes 60 + / 2)) as Hrd.
  fold (JS.Math_round (JS.rem minutes 60)) in Hrd.
  assert (Hh : (0 <= Zfloor (minutes / 60))%Z) by (apply Zfloor_lub; simpl; lra).
  assert (Hm0 : (0 <= JS.Math_round (JS.rem minutes 60))%Z)
    by (unfold JS.Math_round; apply Zfloor_lub; simpl; lra).
  assert (Hm60 : (JS.Math_round (JS.rem minutes 60) <= 60)%Z).
  { assert (JS.Math_round (JS.rem minutes 60) < 61)%Z by (apply lt_IZR; lra). lia. }
  split; [reflexivity |].
  split; [exact Hh |]. split; [lia |]. split; [lra |].
  split; [apply Rabs_le; lra |]. split.
  - split.
    + intros E. rewrite E in Hrd. lra.
    + intros Hnear. apply Math_round_eq. lra.
  - intros n Hn.
    assert (Hn0 : (0 <= n)%Z) by (apply le_IZR; rewrite <- Hn; exact Hm).
    subst minutes. destruct (whole_minutes_split n Hn0) as [-> ->]. split; reflexivity.
Qed.

(** ** The results panel *)

Lemma panel_moves_idle (ys : list R) (b : option bool) :
  fold_left (fun v y => handleResultsTouchMove y v) ys (mkPanel b None)
  = mkPanel b None.
Proof.
  induction ys as [| y ys IH]; [reflexivity |]. cbn [fold_left]. exact IH.
Qed.

Lemma handleResultsTouchMove_tracking (y0 y : R) (b : option bool) :
  handleResultsTouchMove y (mkPanel b (Some y0))
  = if Rgt_dec (y0 - y) 40 then
      mkPanel (match b with
               | None => Some false
               | Some false => Some true
               | Some true => Some true
               end) None
    else if Rlt_dec (y0 - y) (- 40) then
      mkPanel (match b with
               | Some true => Some false
               | Some false => None
               | None => None
               end) None
    else mkPanel b (Some y0).
Proof. reflexivity. Qed.

(** The moves of a touch on the panel that began at [y0]: either none went
    more than 40 px from the start and nothing changed, or the first that
    did moved the panel by at most one step in its own direction and ended
    the tracking. *)
Lemma panel_moves_tracking (y0 : R) (ys : list R) (b : option bool) :
  let u' := fold_left (fun v y => handleResultsTouchMove y v) ys
              (mkPanel b (Some y0)) in
  (u' = mkPanel b (Some y0) /\ Forall (fun y => - 40 <= y0 - y <= 40) ys)
  \/ (touchStartY u' = None
      /\ ((exists y, In y ys /\ y0 - y > 40
                     /\ openLevel (panelExpanded u') = Z.min 2 (openLevel b + 1))
          \/ (exists y, In y ys /\ y0 - y < - 40
                        /\ openLevel (panelExpanded u') = Z.max 0 (openLevel b - 1)))).
Proof.
  induction ys as [| y ys IH]; [left; split; [reflexivity | constructor] |].
  cbn [fold_left]. cbv zeta.
  rewrite (handleResultsTouchMove_tracking y0 y b).
  destruct (Rgt_dec (y0 - y) 40) as [Hup | Hnup].
  - right. rewrite panel_moves_idle. cbn [touchStartY panelExpanded].
    split; [reflexivity |]. left. exists y.
    split; [left; reflexivity |]. split; [exact Hup |].
    destruct b as [[|] |]; reflexivity.
  - destruct (Rlt_dec (y0 - y) (- 40)) as [Hdown | Hndown].
    + right. rewrite panel_moves_idle. cbn [touchStartY panelExpanded].
      split; [reflexivity |]. right. exists y.
      split; [left; reflexivity |]. split; [exact Hdown |].
      destruct b as [[|] |]; reflexivity.
    + destruct IH as [[IH Hall] | (Ht & [(z & Hin & Hz) | (z & Hin & Hz)])].
      * left. split; [exact IH |]. constructor; [lra | exact Hall].
      * right. split; [exact Ht |]. left. exists z. split; [right; exact Hin | exact Hz].
      * right. split; [exact Ht |]. right. exists z. split; [right; exact Hin | exact Hz].
Qed.

(** X23: a click or a touch on the results panel changes it by at most one
    step between hidden, collapsed and expanded.  A click always changes
    the panel and never hides it.  A touch opens the panel only if some
    move went more than 40 px above the start, closes it only if some move
    went more than 40 px below, leaves it alone when no move went beyond
    40 px, and always ends with no touch being tracked.  A panel that is
    shown becomes hidden only by a touch with a move more than 40 px below
    its start. *)
Theorem panel_one_step (a : PanelAction) (u : Panel) :
  let u' := applyPanelAction a u in
  let before := openLevel (panelExpanded u) in
  let after := openLevel (panelExpanded u') in
  (before - 1 <= after <= before + 1)%Z
  /\ (a = PanelClick -> (1 <= after)%Z /\ after <> before)
  /\ (forall y0 ys, a = PanelSwipe y0 ys ->
        touchStartY u' = None
        /\ ((before < after)%Z -> exists y, In y ys /\ y0 - y > 40)
        /\ ((after < before)%Z -> exists y, In y ys /\ y0 - y < - 40)
        /\ (Forall (fun y => - 40 <= y0 - y <= 40) ys ->
            panelExpanded u' = panelExpanded u))
  /\ ((0 < before)%Z -> after = 0%Z ->
      exists y0 ys y, a = PanelSwipe y0 ys /\ In y ys /\ y0 - y < - 40).
Proof.
  intros u' before after. subst u' before after.
  destruct a as [| y0 ys]; cbn [applyPanelAction].
  - unfold handlePanelClick. cbn [panelExpanded].
    destruct (panelExpanded u) as [[|] |]; simpl;
      (split; [lia |]); (split; [intros _; split; [lia | discriminate] |]);
      (split; [intros ? ? [=] |]); intros; lia.
  - unfold panelGesture, handleResultsTouchStart.
    assert (Hswipe :
      let u' := handleResultsTouchEnd
                  (fold_left (fun v y => handleResultsTouchMove y v) ys
                     (mkPanel (panelExpanded u) (Some y0))) in
      let before := openLevel (panelExpanded u) in
      let after := openLevel (panelExpanded u') in
      (before - 1 <= after <= before + 1)%Z
      /\ touchStartY u' = None
      /\ ((before < after)%Z -> exists y, In y ys /\ y0 - y > 40)
      /\ ((after < before)%Z -> exists y, In y ys /\ y0 - y < - 40)
      /\ (Forall (fun y => - 40 <= y0 - y <= 40) ys ->
          panelExpanded u' = panelExpanded u)).
    { cbv zeta.
      destruct (panel_moves_tracking y0 ys (panelExpanded u))
        as [[-> Hall] | (_ & [(y & Hin & Hup & Hlvl) | (y & Hin & Hdown & Hlvl)])];
        cbn [handleResultsTouchEnd panelExpanded touchStartY].
      - repeat split; try lia; intros; try lia; reflexivity.
      - rewrite Hlvl.
        assert (0 <= openLevel (panelExpanded u) <= 2)%Z
          by (destruct (panelExpanded u) as [[|] |]; simpl; lia).
        repeat split; try lia; intros; try lia; eauto.
        exfalso. rewrite Forall_forall in H0. specialize (H0 y Hin). lra.
      - rewrite Hlvl.
        assert (0 <= openLevel (panelExpanded u) <= 2)%Z
          by (destruct (panelExpanded u) as [[|] |]; simpl; lia).
        repeat split; try lia; intros; try lia; eauto.
        exfalso. rewrite Forall_forall in H0. specialize (H0 y Hin). lra. }
    cbv zeta in Hswipe. destruct Hswipe as (H1 & H2 & H3 & H4 & H5).
    split; [exact H1 |]. split; [discriminate |]. split.
    + intros y0' ys' [= <- <-]. repeat split; assumption.
    + intros Hb Ha. destruct H4 as (y & Hin & Hy); [lia |].
      exists y0, ys, y. repeat split; assumption.
Qed.

(** ** The planner's waypoints as navigation destinations *)



(** X25: for a distance in metres that is not negative, [fmtDistM] shows
    whole metres below 1000 m, within half a metre of the distance, and
    otherwise kilometres with one decimal digit, within 50 m of it. *)
Theorem fmtDistM_units (m : R) :
  0 <= m ->
  (m < 1000 ->
   exists n : Z,
     fmtDistM m = (showInt n ++ " m")%string
     /\ (0 <= n <= 1000)%Z /\ Rabs (IZR n - m) <= / 2)
  /\ (1000 <= m ->
      exists a b : Z,
        fmtDistM m = (showInt a ++ "." ++ showInt b ++ " km")%string
        /\ (1 <= a)%Z /\ (0 <= b <= 9)%Z
        /\ Rabs ((IZR a + IZR b / 10) * 1000 - m) <= 50).
Proof.
  intros Hm. unfold fmtDistM. split.
  - intros Hlt. destruct (Rlt_dec m 1000) as [_ | Hn]; [| contradiction].
    exists (JS.Math_round m). split; [reflexivity |].
    unfold JS.Math_round.
    pose proof (Zfloor_bound (m + / 2)) as [Hlo Hhi].
    split; [split |].
    + apply Zfloor_lub. simpl. lra.
    + apply Z.lt_succ_r. apply lt_IZR. rewrite succ_IZR. lra.
    + apply Rabs_le. lra.
  - intros Hge. destruct (Rlt_dec m 1000) as [Habs | _]; [lra |].
    unfold toFixed1String. destruct (Rlt_dec (m / 1000) 0) as [Habs | _]; [lra |].
    unfold fixedDigits1. cbv zeta.
    set (n := JS.Math_round (m / 1000 * 10)).
    exists (n / 10)%Z, (n mod 10)%Z.
    split; [rewrite !string_append_assoc; reflexivity |].
    pose proof (Zfloor_bound (m / 1000 * 10 + / 2)) as [Hlo Hhi].
    fold (JS.Math_round (m / 1000 * 10)) in Hlo, Hhi. fold n in Hlo, Hhi.
    assert (Hn10 : (10 <= n)%Z) by (apply Zfloor_lub; simpl; lra).
    pose proof (Z.div_mod n 10 ltac:(lia)) as Hdm.
    pose proof (Z.mod_pos_bound n 10 ltac:(lia)) as Hr.
    split; [apply Z.div_le_lower_bound; lia |]. split; [lia |].
    assert (HR : IZR n = 10 * IZR (n / 10) + IZR (n mod 10)).
    { rewrite Hdm at 1. rewrite plus_IZR, mult_IZR. reflexivity. }
    apply Rabs_le. lra.
Qed.

(** ** The further properties at concrete inputs *)



(** X5 at the meridian trip, after two readings. *)
Lemma displayed_figures_nonneg_witness :
  (nonnegProp (totalDistance meridianProps) /\ nonnegProp (totalDuration meridianProps))
  /\ displayedNonneg
       (nav (fst (run (mount meridianProps)
                    (map PositionUpdate [meridianSample 48 20; meridianSample 49 20])))).
Proof.
  assert (H1 : nonnegProp (totalDistance meridianProps)) by (simpl; lra).
  assert (H2 : nonnegProp (totalDuration meridianProps)) by (simpl; lra).
  split; [auto |].
  exact (displayed_figures_nonneg meridianProps
           (map PositionUpdate [meridianSample 48 20; meridianSample 49 20]) H1 H2).
Defined.

(** X6 at a session without a route. *)
Lemma no_route_never_flagged_witness :
  (route noRouteProps = None \/ route noRouteProps = Some [])
  /\ isOffRoute
       (nav (fst (run (mount noRouteProps)
                    (map PositionUpdate [meridianSample 48 20; meridianSample 60 20]))))
     = false.
Proof.
  assert (H : route noRouteProps = None \/ route noRouteProps = Some [])
    by (left; reflexivity).
  split; [exact H |].
  exact (proj1 (no_route_never_flagged noRouteProps (initialState noRouteProps) []
                  [meridianSample 48 20; meridianSample 60 20] H)).
Defined.

(** X7 at the flagged session. *)
Lemma recalculation_recovers_witness :
  (snd (handleRecalculate (props flaggedSystem) (nav flaggedSystem) 1700000000000)
   = Some (mkCoords 48 10)
   /\ geometry meridianAnswer = Some [(10, 48); (10, 49); (10, 50)]
   /\ In (longitude (meridianSample 49 20), latitude (meridianSample 49 20))
        [(10, 48); (10, 49); (10, 50)])
  /\ isOffRoute
       (nav (fst (run flaggedSystem
                    [RecalculateClicked 1700000000000;
                     RoutingSettled (List.length (inflight flaggedSystem))
                       (Responded meridianAnswer);
                     PositionUpdate (meridianSample 49 20)])))
     = false.
Proof.
  assert (H1 : snd (handleRecalculate (props flaggedSystem) (nav flaggedSystem)
                      1700000000000) = Some (mkCoords 48 10)) by reflexivity.
  assert (H2 : geometry meridianAnswer = Some [(10, 48); (10, 49); (10, 50)])
    by reflexivity.
  assert (H3 : In (longitude (meridianSample 49 20), latitude (meridianSample 49 20))
                 [(10, 48); (10, 49); (10, 50)])
    by (simpl; right; left; reflexivity).
  split; [auto |].
  exact (proj1 (proj2 (recalculation_recovers flaggedSystem 1700000000000
                         (mkCoords 48 10) meridianAnswer
                         [(10, 48); (10, 49); (10, 50)]
                         (meridianSample 49 20) H1 H2 H3))).
Defined.

(** X11 at 95 minutes. *)
Lemma fmtTime_whole_minutes_witness :
  (0 <= 95)%Z /\ fmtTime 95 = "1 h 35 min"%string.
Proof.
  assert (H : (0 <= 95)%Z) by lia.
  split; [exact H |].
  exact (fmtTime_whole_minutes 95 H).
Defined.

(** X12 at the meridian trip. *)
Lemma displayed_times_whole_witness :
  match totalDuration meridianProps with
  | Some x => wholeMinutes x
  | None => True
  end
  /\ timesWhole
       (nav (fst (run (mount meridianProps)
                    [PositionUpdate (meridianSample 48 20); DrivingTick]))).
Proof.
  assert (H : match totalDuration meridianProps with
              | Some x => wholeMinutes x
              | None => True
              end).
  { simpl. exists 190%Z. split; [lia | reflexivity]. }
  split; [exact H |].
  exact (displayed_times_whole meridianProps
           [PositionUpdate (meridianSample 48 20); DrivingTick] H).
Defined.

(** X13 at 999.7 m. *)
Lemma fmtDist_units_witness :
  0 <= 0.9997 /\ fmtDist 0.9997 = "1000 m"%string.
Proof.
  assert (H : 0 <= 0.9997) by lra.
  split; [exact H |].
  apply (proj1 (proj2 (fmtDist_units 0.9997 H))). lra.
Defined.




(** X20 at a place beside the meridian trip. *)
Lemma rest_stop_position_witness :
  (pr_geometry meridianPlan <> [] /\ 0 <= pr_distance_km meridianPlan)
  /\ (0 <= kmOnRoute meridianPlan 49.2 10.1
       <= JS.Math_round (pr_distance_km meridianPlan))%Z.
Proof.
  assert (H1 : pr_geometry meridianPlan <> []) by (simpl; discriminate).
  assert (H2 : 0 <= pr_distance_km meridianPlan) by (simpl; lra).
  split; [auto |].
  exact (proj2 (rest_stop_position meridianPlan 49.2 10.1 H1 H2)).
Defined.

(** X22 at 95 minutes. *)
Lemma formatDuration_accuracy_witness :
  0 <= 95
  /\ exists h m : Z,
       formatDuration 95
       = (if (0 <? h)%Z
          then (showInt h ++ "h " ++ showInt m ++ "min")%string
          else (showInt m ++ "min")%string)
       /\ (0 <= h)%Z /\ (0 <= m <= 60)%Z.
Proof.
  assert (H : 0 <= 95) by lra.
  split; [exact H |].
  destruct (formatDuration_accuracy 95 H) as (h & m & Hs & Hh & Hm & _).
  exists h, m. auto.
Defined.

(** X25 at 1500 m. *)
Lemma fmtDistM_units_witness :
  0 <= 1500
  /\ exists a b : Z,
       fmtDistM 1500 = (showInt a ++ "." ++ showInt b ++ " km")%string
       /\ (1 <= a)%Z /\ (0 <= b <= 9)%Z
       /\ Rabs ((IZR a + IZR b / 10) * 1000 - 1500) <= 50.
Proof.
  assert (H : 0 <= 1500) by lra.
  split; [exact H |].
  apply (proj2 (fmtDistM_units 1500 H)). lra.
Defined.
